(** * corrscope/outputs.py: the frame-sink process pipeline

    A shallow embedding of [corrscope/outputs.py] (FFmpeg command-line
    generation, [PipeOutput] and its two concrete sinks) together with the
    properties of its specification.

    Layout:
    - [Py]: the Python values the module manipulates (exceptions and their
      class hierarchy, results of calls, [str] of an [int]);
    - [shlex]: [shlex.split] and [shlex.quote] of the Python standard library;
    - the configuration records read by the module;
    - [subprocess]: the operating-system boundary (spawned processes, their
      pipes, the log of every call made to the OS);
    - the classes of [outputs.py], method by method;
    - the vocabulary of the specification, and concrete environments;
    - the properties, then the same properties on concrete runs. *)

From Stdlib Require Import ZArith List String Ascii Bool Lia DecimalString.
Import ListNotations.
Open Scope string_scope.
Open Scope list_scope.
Open Scope Z_scope.

(* ===================================================================== *)
(** ** Python values *)
(* ===================================================================== *)

Module Py.

(** Exception classes that can reach a handler of [outputs.py], with the
    base class of each (CPython's built-in hierarchy; [TimeoutExpired] is
    [subprocess.TimeoutExpired]).  [MissingFFmpegError] is imported from
    [corrscope.ffmpeg_path]; no handler of this module names it or one of
    its bases, so only its identity matters here. *)
Inductive exn_class : Type :=
| BaseException
| Exception
| TypeError
| ValueError
| AttributeError
| IndexError
| OSError
| ConnectionError
| BrokenPipeError
| FileNotFoundError
| PermissionError
| SubprocessError
| TimeoutExpired
| MissingFFmpegError.

Definition exn_class_eqb (c d : exn_class) : bool :=
  match c, d with
  | BaseException, BaseException | Exception, Exception
  | TypeError, TypeError | ValueError, ValueError
  | AttributeError, AttributeError | IndexError, IndexError
  | OSError, OSError | ConnectionError, ConnectionError
  | BrokenPipeError, BrokenPipeError
  | FileNotFoundError, FileNotFoundError
  | PermissionError, PermissionError
  | SubprocessError, SubprocessError | TimeoutExpired, TimeoutExpired
  | MissingFFmpegError, MissingFFmpegError => true
  | _, _ => false
  end.

(** The direct base class ([None] for the root). *)
Definition base (c : exn_class) : option exn_class :=
  match c with
  | BaseException => None
  | Exception => Some BaseException
  | TypeError | ValueError | AttributeError | IndexError
  | OSError | SubprocessError | MissingFFmpegError => Some Exception
  | ConnectionError | FileNotFoundError | PermissionError => Some OSError
  | BrokenPipeError => Some ConnectionError
  | TimeoutExpired => Some SubprocessError
  end.

(** [issubclass c d]: [d] is [c] or one of its ancestors.  The hierarchy
    above is four levels deep. *)
Fixpoint issubclass_upto (depth : nat) (c d : exn_class) : bool :=
  exn_class_eqb c d ||
  match depth, base c with
  | S depth', Some b => issubclass_upto depth' b d
  | _, _ => false
  end.

Definition issubclass : exn_class -> exn_class -> bool := issubclass_upto 4.

(** errno values (Linux numbering) that select an [OSError] subclass. *)
Definition EPERM : Z := 1.
Definition ENOENT : Z := 2.
Definition EACCES : Z := 13.
Definition EPIPE : Z := 32.
Definition ESHUTDOWN : Z := 108.

(** Exception instances.  An OS-level failure is an [OSError] carrying its
    errno; as in CPython (PEP 3151) the errno selects the class of the
    instance, see [class_of]. *)
Inductive exn : Type :=
| os_error (errno : Z)
| type_error (msg : string)
| value_error (msg : string)
| attribute_error (msg : string)
| index_error (msg : string)
| timeout_expired (cmd : list string) (timeout : Z)
| missing_ffmpeg_error.

Definition class_of (e : exn) : exn_class :=
  match e with
  | os_error errno =>
      if (errno =? EPIPE) || (errno =? ESHUTDOWN) then BrokenPipeError
      else if errno =? ENOENT then FileNotFoundError
      else if (errno =? EACCES) || (errno =? EPERM) then PermissionError
      else OSError
  | type_error _ => TypeError
  | value_error _ => ValueError
  | attribute_error _ => AttributeError
  | index_error _ => IndexError
  | timeout_expired _ _ => TimeoutExpired
  | missing_ffmpeg_error => MissingFFmpegError
  end.

Definition isinstance (e : exn) (c : exn_class) : bool :=
  issubclass (class_of e) c.

(** What an [except (c1, c2, ...)] clause catches. *)
Definition caught_by (classes : list exn_class) (e : exn) : bool :=
  existsb (isinstance e) classes.

(** The outcome of a call: it returns a value, raises, or never returns
    (a blocking OS call whose condition never comes). *)
Inductive result (A : Type) : Type :=
| Returns (a : A)
| Raises (e : exn)
| Hangs.

Arguments Returns {A} a.
Arguments Raises {A} e.
Arguments Hangs {A}.

(** [str(n)] for a Python [int]. *)
Definition str_int (n : Z) : string := NilZero.string_of_int (Z.to_int n).

(** Truth value of an [Optional[str]]: [None] and the empty string are
    false. *)
Definition truthy (s : option string) : bool :=
  match s with
  | None => false
  | Some s => negb (s =? "")%string
  end.

End Py.
Import Py.

#[global] Arguments isinstance : simpl never.
#[global] Arguments caught_by : simpl never.

(* ===================================================================== *)
(** ** shlex *)
(* ===================================================================== *)

(** [shlex.split(s)] and [shlex.quote(s)] as CPython implements them, for
    the lexer settings [split] uses: POSIX mode, [whitespace_split], no
    commenters, no punctuation characters.  Characters are bytes. *)
Module shlex.

Definition tab : ascii := "009"%char.
Definition lf : ascii := "010"%char.
Definition cr : ascii := "013"%char.
Definition dquote : ascii := "034"%char.
Definition squote : ascii := "'"%char.
Definition backslash : ascii := "\"%char.

(** [nextchar in self.whitespace] *)
Definition is_whitespace (c : ascii) : bool :=
  (c =? " ")%char || (c =? tab)%char || (c =? cr)%char || (c =? lf)%char.

(** [nextchar in self.quotes] *)
Definition is_quote (c : ascii) : bool :=
  (c =? squote)%char || (c =? dquote)%char.

(** [nextchar in self.escape] *)
Definition is_escape (c : ascii) : bool := (c =? backslash)%char.

(** The lexer's [state]: [' '], a quote character, the escape character or
    ['a'].  ([None], end of input, is the empty input below.) *)
Inductive lexstate : Type :=
| in_space
| in_quotes (q : ascii)
| in_escape
| in_word.

(** [self.token or (self.posix and quoted)] *)
Definition emits (token : string) (quoted : bool) : bool :=
  negb (token =? "")%string || quoted.

Definition push (token : string) (c : ascii) : string :=
  (token ++ String c EmptyString)%string.

Definition cons_token (token : string) (r : result (list string))
  : result (list string) :=
  match r with
  | Returns l => Returns (token :: l)
  | Raises e => Raises e
  | Hangs => Hangs
  end.

(** The loop of [read_token], run over the whole input: one step per
    character read.  When [read_token] breaks with a token, the token is
    emitted and the next call starts with [quoted = False], [escapedstate =
    ' '] and an empty token, in the state the lexer was left in. *)
Fixpoint read (input : string) (state escapedstate : lexstate)
    (quoted : bool) (token : string) : result (list string) :=
  match input with
  | EmptyString =>
      match state with
      | in_space | in_word =>
          Returns (if emits token quoted then [token] else [])
      | in_quotes _ => Raises (value_error "No closing quotation")
      | in_escape => Raises (value_error "No escaped character")
      end
  | String nextchar rest =>
      match state with
      | in_space =>
          if is_whitespace nextchar then
            if emits token quoted
            then cons_token token (read rest in_space in_space false EmptyString)
            else read rest in_space escapedstate quoted token
          else if is_escape nextchar then
            read rest in_escape in_word quoted token
          else if is_quote nextchar then
            read rest (in_quotes nextchar) escapedstate quoted token
          else
            read rest in_word escapedstate quoted (String nextchar EmptyString)
      | in_quotes q =>
          if (nextchar =? q)%char then
            read rest in_word escapedstate true token
          else if is_escape nextchar && (q =? dquote)%char then
            read rest in_escape (in_quotes q) true token
          else
            read rest (in_quotes q) escapedstate true (push token nextchar)
      | in_escape =>
          let token :=
            match escapedstate with
            | in_quotes q =>
                if negb (nextchar =? backslash)%char && negb (nextchar =? q)%char
                then push token backslash
                else token
            | _ => token
            end in
          read rest escapedstate escapedstate quoted (push token nextchar)
      | in_word =>
          if is_whitespace nextchar then
            if emits token quoted
            then cons_token token (read rest in_space in_space false EmptyString)
            else read rest in_space escapedstate quoted token
          else if is_quote nextchar then
            read rest (in_quotes nextchar) escapedstate quoted token
          else if is_escape nextchar then
            read rest in_escape in_word quoted token
          else
            read rest in_word escapedstate quoted (push token nextchar)
      end
  end.

(** [shlex.split(s)] *)
Definition split (s : string) : result (list string) :=
  read s in_space in_space false EmptyString.

(** [_find_unsafe = re.compile(r'[^\w@%+=:,./-]', re.ASCII).search] *)
Definition is_safe (c : ascii) : bool :=
  let n := nat_of_ascii c in
  ((48 <=? n) && (n <=? 57))%nat            (* 0-9 *)
  || ((65 <=? n) && (n <=? 90))%nat         (* A-Z *)
  || ((97 <=? n) && (n <=? 122))%nat        (* a-z *)
  || (c =? "_")%char || (c =? "@")%char || (c =? "%")%char
  || (c =? "+")%char || (c =? "=")%char || (c =? ":")%char
  || (c =? ",")%char || (c =? ".")%char || (c =? "/")%char
  || (c =? "-")%char.

Fixpoint all_safe (s : string) : bool :=
  match s with
  | EmptyString => true
  | String c rest => is_safe c && all_safe rest
  end.

(** The text a single quote is replaced by: quote, double quote, quote,
    double quote, quote. *)
Definition squote_escaped : string :=
  String squote (String dquote (String squote (String dquote
    (String squote EmptyString)))).

(** [s.replace(squote, squote_escaped)] *)
Fixpoint replace_squotes (s : string) : string :=
  match s with
  | EmptyString => EmptyString
  | String c rest =>
      if (c =? squote)%char then (squote_escaped ++ replace_squotes rest)%string
      else String c (replace_squotes rest)
  end.

(** [shlex.quote(s)] *)
Definition quote (s : string) : string :=
  if (s =? "")%string then "''"
  else if all_safe s then s
  else (String squote (replace_squotes s) ++ String squote EmptyString)%string.

End shlex.

(* ===================================================================== *)
(** ** Configuration *)
(* ===================================================================== *)

(** What the host platform decides and this module only uses: Python
    [float] values (the trim timestamps) with their subtraction and their
    formatting inside an f-string, the formatting of the frame rate, and
    [os.path.abspath], which depends on the working directory. *)
Class Host : Type := {
  float : Type;
  float_sub : float -> float -> float;
  float_str : float -> string;
  fps_t : Type;
  fps_str : fps_t -> string;
  abspath : string -> string
}.

(** [corr_cfg.render]: the fields read here. *)
Record RendererConfig : Type := {
  width : Z;
  height : Z
}.

(** Modelled from the spec: the top-level [Config] class lives in
    [corrscope.corrscope]; these are the attributes [outputs.py] reads
    (RenderConfig width, height, fps and the optional AudioConfig path,
    beginTime, endTime of the specification's data model). *)
Record Config {host : Host} : Type := {
  render : RendererConfig;
  render_fps : fps_t;
  master_audio : option string;
  begin_time : float;
  end_time : option float
}.

Module FFmpegOutputConfig.
(** [path = None] writes to stdout. *)
Record t : Type := {
  path : option string;
  args : string;
  video_template : string;
  audio_template : string
}.
(** The class-level defaults. *)
Definition default (path : option string) : t :=
  {| path := path;
     args := EmptyString;
     video_template := "-c:v libx264 -crf 18 -preset superfast -movflags faststart";
     audio_template := "-c:a aac -b:a 384k" |}.
End FFmpegOutputConfig.

Module FFplayOutputConfig.
Record t : Type := {
  video_template : string;
  audio_template : string
}.
Definition default : t :=
  {| video_template := "-c:v copy"; audio_template := "-c:a copy" |}.
End FFplayOutputConfig.

(** [IOutputConfig] with its two registered subclasses. *)
Inductive IOutputConfig : Type :=
| FFmpegCfg (cfg : FFmpegOutputConfig.t)
| FFplayCfg (cfg : FFplayOutputConfig.t).

Definition video_template (cfg : IOutputConfig) : string :=
  match cfg with
  | FFmpegCfg c => FFmpegOutputConfig.video_template c
  | FFplayCfg c => FFplayOutputConfig.video_template c
  end.

Definition audio_template (cfg : IOutputConfig) : string :=
  match cfg with
  | FFmpegCfg c => FFmpegOutputConfig.audio_template c
  | FFplayCfg c => FFplayOutputConfig.audio_template c
  end.

Definition RGB_DEPTH : Z := 3.
Definition PIXEL_FORMAT : string := "rgb24".
Definition FRAMES_TO_BUFFER : Z := 2.
Definition FFMPEG : string := "ffmpeg".
Definition FFPLAY : string := "ffplay".

Definition ByteBuffer : Type := list Byte.byte.

(** The class [_Stop] and its single instance [Stop]. *)
Inductive _Stop : Type := Stop.

(* ===================================================================== *)
(** ** The operating-system boundary *)
(* ===================================================================== *)

Module subprocess.

Inductive stream_name : Type := Stdin | Stdout.

(** A file object of the parent process: its end of the pipe connected to
    the named standard stream of child [owner]. *)
Record File : Type := {
  owner : nat;
  stream : stream_name
}.

Definition stream_name_eqb (a b : stream_name) : bool :=
  match a, b with
  | Stdin, Stdin | Stdout, Stdout => true
  | _, _ => false
  end.

Definition File_eqb (f g : File) : bool :=
  Nat.eqb (owner f) (owner g) && stream_name_eqb (stream f) (stream g).

(** The [stdin=] and [stdout=] arguments of [subprocess.Popen]: [None]
    (inherit), [subprocess.PIPE], or an existing file object. *)
Inductive redirect : Type :=
| Inherit
| PIPE
| Handle (f : File).

(** A [subprocess.Popen] object.  [pid] numbers the children in spawn
    order. *)
Record Popen : Type := {
  pid : nat;
  args : list string;
  stdin : option File;
  stdout : option File
}.

(** One call made to the operating system, with its reply. *)
Inductive event : Type :=
| EvSpawn (args : list string) (stdin stdout : redirect) (bufsize : Z)
    (reply : exn + Popen)
| EvWrite (f : File) (data : ByteBuffer) (failure : option exn)
| EvClose (f : File) (failure : option exn)
| EvWriteBlocked (f : File) (data : ByteBuffer)
| EvCloseBlocked (f : File)
| EvTerminate (p : Popen)
| EvKill (p : Popen)
| EvWait (p : Popen) (timeout : option Z) (code : option Z).

(** The environment: how the OS and the child processes answer, given
    everything that happened so far.
    - [locatable exe]: the executable can be found on the search path;
    - [spawn_error]: the OS refuses to create the process;
    - [write_error], [close_error]: the failure of a write to, or a close
      of, a file object ([None]: it does not fail);
    - [write_blocks], [close_blocks]: a write to, or a close of, the
      parent's write end of a pipe that does not fail never returns.  The
      file object is an [io.BufferedWriter]; a write that finds its buffer
      full and a close both flush the buffer into the pipe, and the flush
      does not complete while the pipe is full and the child neither reads
      its stdin nor exits;
    - [wait_reply log p timeout]: the exit code [Popen.wait] collects, or
      [None] when the process does not exit (within [timeout] seconds when
      one is given, ever otherwise). *)
Record OS : Type := {
  locatable : string -> bool;
  spawn_error : list event -> list string -> option exn;
  write_error : list event -> File -> ByteBuffer -> option exn;
  close_error : list event -> File -> option exn;
  write_blocks : list event -> File -> ByteBuffer -> bool;
  close_blocks : list event -> File -> bool;
  wait_reply : list event -> Popen -> option Z -> option Z
}.

Definition spawned (ev : event) : bool :=
  match ev with
  | EvSpawn _ _ _ _ (inr _) => true
  | _ => false
  end.

(** The number the next child gets. *)
Definition next_pid (log : list event) : nat :=
  List.length (filter spawned log).

(** *** Who holds which end of a pipe *)

Inductive holder : Type := Parent | Child (pid : nat).

Inductive pipe_side : Type := ReadEnd | WriteEnd.

Definition pipe_side_eqb (a b : pipe_side) : bool :=
  match a, b with
  | ReadEnd, ReadEnd | WriteEnd, WriteEnd => true
  | _, _ => false
  end.

Definition holder_eqb (a b : holder) : bool :=
  match a, b with
  | Parent, Parent => true
  | Child m, Child n => Nat.eqb m n
  | _, _ => false
  end.

(** The end the parent's file object is: it writes to a child's stdin and
    reads from a child's stdout. *)
Definition side_of (f : File) : pipe_side :=
  match stream f with
  | Stdin => WriteEnd
  | Stdout => ReadEnd
  end.

(** The parent writes through [f]: only then is there a buffer to flush. *)
Definition is_writer (f : File) : bool := pipe_side_eqb (side_of f) WriteEnd.

(** The event a write to [f] leaves in the log. *)
Definition write_event (os : OS) (log : list event) (f : File)
    (data : ByteBuffer) : event :=
  match write_error os log f data with
  | Some e => EvWrite f data (Some e)
  | None =>
      if is_writer f && write_blocks os log f data
      then EvWriteBlocked f data
      else EvWrite f data None
  end.

(** The event a close of [f] leaves in the log. *)
Definition close_event (os : OS) (log : list event) (f : File) : event :=
  match close_error os log f with
  | Some e => EvClose f (Some e)
  | None =>
      if is_writer f && close_blocks os log f
      then EvCloseBlocked f
      else EvClose f None
  end.

Definition passes (r : redirect) (f : File) : bool :=
  match r with
  | Handle g => File_eqb g f
  | _ => false
  end.

Definition is_pipe (r : redirect) : bool :=
  match r with
  | PIPE => true
  | _ => false
  end.

(** The effect of one event on the holders of end [side] of the pipe whose
    parent-side object is [f].  A spawn with [PIPE] creates the pipe: the
    parent keeps the end [f] is and the child the opposite one
    ([subprocess] closes the parent's copy of the child's end).  A spawn
    that is passed [f] gives the child a duplicate of the end [f] is.
    [close] releases the parent's end, whether or not a flush failed; a
    close that never returns releases nothing. *)
Definition hold_step (side : pipe_side) (f : File) (hs : list holder)
    (ev : event) : list holder :=
  match ev with
  | EvSpawn _ sin sout _ (inr p) =>
      let created :=
        Nat.eqb (owner f) (pid p) &&
        match stream f with
        | Stdin => is_pipe sin
        | Stdout => is_pipe sout
        end in
      let hs :=
        if created
        then hs ++ [if pipe_side_eqb side (side_of f) then Parent else Child (pid p)]
        else hs in
      if (passes sin f || passes sout f) && pipe_side_eqb side (side_of f)
      then hs ++ [Child (pid p)]
      else hs
  | EvClose g _ =>
      if File_eqb g f && pipe_side_eqb side (side_of f)
      then filter (fun h => negb (holder_eqb h Parent)) hs
      else hs
  | _ => hs
  end.

Definition holders (side : pipe_side) (f : File) (log : list event)
  : list holder :=
  fold_left (hold_step side f) log [].

Definition writers : File -> list event -> list holder := holders WriteEnd.
Definition readers : File -> list event -> list holder := holders ReadEnd.

End subprocess.
Import subprocess.

(* ===================================================================== *)
(** ** The sink object and the monad its methods run in *)
(* ===================================================================== *)

(** The instance attributes of an [Output]: [corr_cfg], [cfg] and
    [bufsize] are bound by [Output.__init__], [_pipeline] and [_stream] by
    [PipeOutput.open].  [None] is an attribute not bound yet; [_stream]
    holds [pipeline[0].stdin], which is itself [None] or a file object. *)
Record OutputObject {host : Host} : Type := {
  corr_cfg : option Config;
  cfg : option IOutputConfig;
  bufsize : option Z;
  _pipeline : option (list Popen);
  _stream : option (option File)
}.

(** What a method can change: the object it is called on, and the log of
    the calls made to the operating system. *)
Record State {host : Host} : Type := {
  self : OutputObject;
  log : list event
}.

Section Monad.
Context {host : Host}.

(** An object on which no attribute is bound. *)
Definition blank : OutputObject :=
  {| corr_cfg := None; cfg := None; bufsize := None;
     _pipeline := None; _stream := None |}.

Definition set_corr_cfg (v : Config) (o : OutputObject) : OutputObject :=
  {| corr_cfg := Some v; cfg := cfg o; bufsize := bufsize o;
     _pipeline := _pipeline o; _stream := _stream o |}.

Definition set_cfg (v : IOutputConfig) (o : OutputObject) : OutputObject :=
  {| corr_cfg := corr_cfg o; cfg := Some v; bufsize := bufsize o;
     _pipeline := _pipeline o; _stream := _stream o |}.

Definition set_bufsize (v : Z) (o : OutputObject) : OutputObject :=
  {| corr_cfg := corr_cfg o; cfg := cfg o; bufsize := Some v;
     _pipeline := _pipeline o; _stream := _stream o |}.

Definition set__pipeline (v : list Popen) (o : OutputObject) : OutputObject :=
  {| corr_cfg := corr_cfg o; cfg := cfg o; bufsize := bufsize o;
     _pipeline := Some v; _stream := _stream o |}.

Definition set__stream (v : option File) (o : OutputObject) : OutputObject :=
  {| corr_cfg := corr_cfg o; cfg := cfg o; bufsize := bufsize o;
     _pipeline := _pipeline o; _stream := Some v |}.

(** A computation: given the environment and the current state, an outcome
    and the state it leaves. *)
Definition M (A : Type) : Type := OS -> State -> result A * State.

Definition ret {A : Type} (a : A) : M A := fun _ st => (Returns a, st).

Definition raise {A : Type} (e : exn) : M A := fun _ st => (Raises e, st).

Definition bind {A B : Type} (m : M A) (k : A -> M B) : M B :=
  fun os st =>
    match m os st with
    | (Returns a, st') => k a os st'
    | (Raises e, st') => (Raises e, st')
    | (Hangs, st') => (Hangs, st')
    end.

(** A pure computation that may raise. *)
Definition lift {A : Type} (r : result A) : M A := fun _ st => (r, st).

(** [try: body  except classes as e: handler e] *)
Definition try_except {A : Type} (body : M A) (classes : list exn_class)
    (handler : exn -> M A) : M A :=
  fun os st =>
    match body os st with
    | (Raises e, st') =>
        if caught_by classes e then handler e os st' else (Raises e, st')
    | other => other
    end.

(** [for x in xs: acc = body acc x], the loop variable state threaded
    through. *)
Fixpoint for_ {A B : Type} (xs : list A) (acc : B) (body : B -> A -> M B)
  : M B :=
  match xs with
  | [] => ret acc
  | x :: xs' => bind (body acc x) (fun acc' => for_ xs' acc' body)
  end.

(** [self.name] *)
Definition getattr {A : Type} (name : string) (field : OutputObject -> option A)
  : M A :=
  fun _ st =>
    match field (self st) with
    | Some v => (Returns v, st)
    | None => (Raises (attribute_error name), st)
    end.

(** [self.name = v] *)
Definition setattr (update : OutputObject -> OutputObject) : M unit :=
  fun _ st => (Returns tt, {| self := update (self st); log := log st |}).

(** The receiver of a method call [v.name(...)]: [None] has no methods. *)
Definition receiver (name : string) (v : option File) : M File :=
  match v with
  | Some f => ret f
  | None => raise (attribute_error name)
  end.

Definition record (st : State) (ev : event) : State :=
  {| self := self st; log := log st ++ [ev] |}.

(** *** Calls to the operating system *)

(** [f.write(data)]: the call returns, raises, or never returns (the
    buffer is full and cannot be flushed). *)
Definition File_write (f : File) (data : ByteBuffer) : M unit :=
  fun os st =>
    let st' := record st (write_event os (log st) f data) in
    match write_error os (log st) f data with
    | Some e => (Raises e, st')
    | None =>
        if is_writer f && write_blocks os (log st) f data
        then (Hangs, st')
        else (Returns tt, st')
    end.

(** [f.close()]: the buffer of a writer is flushed first, and the call
    does not return while the flush cannot complete.  Otherwise the
    parent's end is released, even when the call reports a failure (a
    flush of buffered data that failed). *)
Definition File_close (f : File) : M unit :=
  fun os st =>
    let st' := record st (close_event os (log st) f) in
    match close_error os (log st) f with
    | Some e => (Raises e, st')
    | None =>
        if is_writer f && close_blocks os (log st) f
        then (Hangs, st')
        else (Returns tt, st')
    end.

(** [popen.terminate()]: the graceful signal is sent.  The call returns:
    CPython does nothing for a child already reaped and ignores the
    signal's failure for a child already gone. *)
Definition Popen_terminate (p : Popen) : M unit :=
  fun _ st => (Returns tt, record st (EvTerminate p)).

(** [popen.kill()], likewise. *)
Definition Popen_kill (p : Popen) : M unit :=
  fun _ st => (Returns tt, record st (EvKill p)).

(** [popen.wait(timeout)]: the exit code; [TimeoutExpired] when a timeout
    is given and the process has not exited by then; without a timeout the
    call blocks until the process exits. *)
Definition Popen_wait (p : Popen) (timeout : option Z) : M Z :=
  fun os st =>
    let code := wait_reply os (log st) p timeout in
    let st' := record st (EvWait p timeout code) in
    match code, timeout with
    | Some c, _ => (Returns c, st')
    | None, Some t => (Raises (timeout_expired (args p) t), st')
    | None, None => (Hangs, st')
    end.

Definition pipe_object (r : redirect) (f : File) : option File :=
  match r with
  | PIPE => Some f
  | _ => None
  end.

(** The [Popen] object of child number [n]. *)
Definition new_popen (n : nat) (args : list string) (stdin stdout : redirect)
  : Popen :=
  {| pid := n;
     subprocess.args := args;
     subprocess.stdin := pipe_object stdin {| owner := n; stream := Stdin |};
     subprocess.stdout := pipe_object stdout {| owner := n; stream := Stdout |} |}.

(** What the OS answers to a spawn request: the failure, or the new
    [Popen] object.  An executable that cannot be located is
    [FileNotFoundError] (errno ENOENT); the new object has a file object for
    each stream requested as [PIPE]. *)
Definition spawn_reply (os : OS) (log : list event) (args : list string)
    (executable : string) (stdin stdout : redirect) : exn + Popen :=
  let failure :=
    if locatable os executable then spawn_error os log args
    else Some (os_error ENOENT) in
  match failure with
  | Some e => inl e
  | None => inr (new_popen (next_pid log) args stdin stdout)
  end.

(** [subprocess.Popen(args, stdin=..., stdout=..., bufsize=...)] *)
Definition Popen_new (args : list string) (stdin stdout : redirect)
    (bufsize : Z) : M Popen :=
  fun os st =>
    match args with
    | [] => (Raises (index_error "list index out of range"), st)
    | executable :: _ =>
        let reply := spawn_reply os (log st) args executable stdin stdout in
        let st' := record st (EvSpawn args stdin stdout bufsize reply) in
        match reply with
        | inl e => (Raises e, st')
        | inr p => (Returns p, st')
        end
    end.

(** A file object passed as [stdin=]: [None] means inherit. *)
Definition as_redirect (v : option File) : redirect :=
  match v with
  | Some f => Handle f
  | None => Inherit
  end.

End Monad.

Notation "x <- m ;; k" := (bind m (fun x => k))
  (at level 61, m at next level, right associativity).
Notation "m ;; k" := (bind m (fun _ => k))
  (at level 61, right associativity).

(* ===================================================================== *)
(** ** outputs.py *)
(* ===================================================================== *)

Module Output.
Section Output.
Context {host : Host}.

Definition __init__ (corr_cfg : Config) (cfg : IOutputConfig) : M unit :=
  setattr (set_corr_cfg corr_cfg) ;;
  setattr (set_cfg cfg) ;;
  let rcfg := render corr_cfg in
  let frame_bytes := height rcfg * width rcfg * RGB_DEPTH in
  setattr (set_bufsize (frame_bytes * FRAMES_TO_BUFFER)).

End Output.
End Output.

(** *** FFmpeg command line generation *)

Section CommandLine.
Context {host : Host}.

Definition ffmpeg_input_video (cfg : Config) : list string :=
  let fps := render_fps cfg in
  let width := width (render cfg) in
  let height := height (render cfg) in
  [ ("-f rawvideo -pixel_format " ++ PIXEL_FORMAT ++ " -video_size "
       ++ str_int width ++ "x" ++ str_int height)%string;
    ("-framerate " ++ fps_str fps)%string;
    "-i -" ].

Definition ffmpeg_input_audio (audio_path : string) : list string :=
  ["-i"; audio_path].

(** [[arg for template in templates for arg in shlex.split(template)]] *)
Fixpoint split_all (templates : list string) : result (list string) :=
  match templates with
  | [] => Returns []
  | template :: rest =>
      match shlex.split template with
      | Returns args =>
          match split_all rest with
          | Returns more => Returns (args ++ more)
          | Raises e => Raises e
          | Hangs => Hangs
          end
      | Raises e => Raises e
      | Hangs => Hangs
      end
  end.

End CommandLine.

Module _FFmpegProcess.
Section FFmpegProcess.
Context {host : Host}.

Record t : Type := {
  templates : list string;
  corr_cfg : Config
}.

(** [self.templates.append(template)] and [self.templates += more]: the
    list is changed in place; every list a constructor passes in is a
    fresh literal, so no other reference sees the change. *)
Definition append (self : t) (template : string) : t :=
  {| templates := templates self ++ [template]; corr_cfg := corr_cfg self |}.

Definition extend (self : t) (more : list string) : t :=
  {| templates := templates self ++ more; corr_cfg := corr_cfg self |}.

Definition __init__ (templates : list string) (corr_cfg : Config) : t :=
  let self := {| templates := templates; corr_cfg := corr_cfg |} in
  let self := extend self (ffmpeg_input_video corr_cfg) in
  if truthy (master_audio corr_cfg) then
    let self := append self ("-ss " ++ float_str (begin_time corr_cfg))%string in
    (* [master_audio] is a string here: [None] is not truthy. *)
    let master_audio :=
      match master_audio corr_cfg with
      | Some path => path
      | None => EmptyString
      end in
    let audio_path := shlex.quote (abspath master_audio) in
    let self := extend self (ffmpeg_input_audio audio_path) in
    match end_time corr_cfg with
    | Some end_time =>
        let dur := float_sub end_time (begin_time corr_cfg) in
        append self ("-to " ++ float_str dur)%string
    | None => self
    end
  else self.

Definition add_output (self : t) (cfg : IOutputConfig) : t :=
  let self := append self (video_template cfg) in
  if truthy (master_audio (corr_cfg self))
  then append self (audio_template cfg)
  else self.

Definition _generate_args (self : t) : result (list string) :=
  split_all (templates self).

(** [popen(extra_args, bufsize, stdout=...)]: the only keyword argument the
    callers pass on is [stdout]. *)
Definition popen (self : t) (extra_args : list string) (bufsize : Z)
    (stdout : redirect) : M Popen :=
  try_except
    (args <- lift (_generate_args self) ;;
     Popen_new (args ++ extra_args) PIPE stdout bufsize)
    [FileNotFoundError]
    (fun _ => raise missing_ffmpeg_error).

End FFmpegProcess.
End _FFmpegProcess.

Module PipeOutput.
Section PipeOutput.
Context {host : Host}.

(** [open], called with the processes of the pipeline as its positional
    arguments. *)
Definition open (pipeline : list Popen) : M unit :=
  if (List.length pipeline =? 0)%nat then
    raise (type_error "must provide at least one Popen argument to popens")
  else
    setattr (set__pipeline pipeline) ;;
    match pipeline with
    | first :: _ => setattr (set__stream (stdin first))
    | [] => raise (index_error "tuple index out of range")
    end.

Definition write_frame (frame : ByteBuffer) : M (option _Stop) :=
  try_except
    (_stream <- getattr "_stream" _stream ;;
     f <- receiver "write" _stream ;;
     File_write f frame ;;
     ret None)
    [BrokenPipeError]
    (fun _ => ret (Some Stop)).

Definition close (wait : bool) : M Z :=
  try_except
    (_stream <- getattr "_stream" _stream ;;
     f <- receiver "close" _stream ;;
     File_close f)
    [BrokenPipeError; OSError]
    (fun _ => ret tt) ;;
  if negb wait then ret 0
  else
    _pipeline <- getattr "_pipeline" _pipeline ;;
    for_ _pipeline 0 (fun retval popen =>
      code <- Popen_wait popen None ;;
      ret (Z.lor retval code)).

Definition terminate : M unit :=
  close false ;;
  _pipeline <- getattr "_pipeline" _pipeline ;;
  exc <- for_ _pipeline None (fun exc popen =>
    Popen_terminate popen ;;
    try_except
      (Popen_wait popen (Some 1) ;; ret exc)
      [TimeoutExpired]
      (fun e => Popen_kill popen ;; ret (Some e))) ;;
  match exc with
  | Some e => raise e
  | None => ret tt
  end.

(** [__exit__(exc_type, exc_val, exc_tb)]; [close()] is [close(wait=True)].
    The method returns [None]. *)
Definition __exit__ (exc_type : option exn_class) : M unit :=
  match exc_type with
  | None => close true ;; ret tt
  | Some _ => terminate
  end.

(** [with sink: body]: [__enter__] returns the sink; [__exit__] is called
    once when the block is left, with the class of the exception that left
    it or [None].  [__exit__] returns [None], so an exception of the body
    goes on propagating unless [__exit__] itself raises. *)
Definition with_ {A : Type} (body : M A) : M A :=
  fun os st =>
    match body os st with
    | (Returns a, st') => (__exit__ None ;; ret a) os st'
    | (Raises e, st') => (__exit__ (Some (class_of e)) ;; raise e) os st'
    | (Hangs, st') => (Hangs, st')
    end.

End PipeOutput.
End PipeOutput.

Module FFmpegOutput.
Section FFmpegOutput.
Context {host : Host}.

Definition __init__ (corr_cfg : Config) (cfg : FFmpegOutputConfig.t) : M unit :=
  Output.__init__ corr_cfg (FFmpegCfg cfg) ;;
  let ffmpeg := _FFmpegProcess.__init__ [FFMPEG; "-y"] corr_cfg in
  let ffmpeg := _FFmpegProcess.add_output ffmpeg (FFmpegCfg cfg) in
  let ffmpeg := _FFmpegProcess.append ffmpeg (FFmpegOutputConfig.args cfg) in
  let video_path :=
    match FFmpegOutputConfig.path cfg with
    | None => "-"
    | Some path => abspath path
    end in
  bufsize <- getattr "bufsize" bufsize ;;
  p <- _FFmpegProcess.popen ffmpeg [video_path] bufsize Inherit ;;
  PipeOutput.open [p].

End FFmpegOutput.
End FFmpegOutput.

Module FFplayOutput.
Section FFplayOutput.
Context {host : Host}.

(** [subprocess.Popen]'s default [bufsize]. *)
Definition default_bufsize : Z := -1.

Definition __init__ (corr_cfg : Config) (cfg : FFplayOutputConfig.t) : M unit :=
  Output.__init__ corr_cfg (FFplayCfg cfg) ;;
  let ffmpeg := _FFmpegProcess.__init__ [FFMPEG; "-nostats"] corr_cfg in
  let ffmpeg := _FFmpegProcess.add_output ffmpeg (FFplayCfg cfg) in
  let ffmpeg := _FFmpegProcess.append ffmpeg "-f nut" in
  bufsize <- getattr "bufsize" bufsize ;;
  p1 <- _FFmpegProcess.popen ffmpeg ["-"] bufsize PIPE ;;
  ffplay <- lift (shlex.split "ffplay -autoexit -") ;;
  p2 <- Popen_new ffplay (as_redirect (stdout p1)) Inherit default_bufsize ;;
  f <- receiver "close" (stdout p1) ;;
  File_close f ;;
  PipeOutput.open [p1; p2].

End FFplayOutput.
End FFplayOutput.

Section Registry.
Context {host : Host}.

(** [IOutputConfig.__call__]: [self.cls(corr_cfg, cfg=self)], with [cls]
    as [register_output] bound it. *)
Definition construct (cfg : IOutputConfig) (corr_cfg : Config) : M unit :=
  match cfg with
  | FFmpegCfg c => FFmpegOutput.__init__ corr_cfg c
  | FFplayCfg c => FFplayOutput.__init__ corr_cfg c
  end.

End Registry.

(* ===================================================================== *)
(** ** The specification's vocabulary *)
(* ===================================================================== *)

(** *** The command, group by group, as the specification lists it *)

Module CommandTemplate.
Section CommandTemplate.
Context {host : Host}.

(** The specification's optional [AudioConfig]. *)
Record AudioConfig : Type := {
  path : string;
  beginTime : float;
  endTime : option float
}.

(** The audio configuration a [Config] carries: audio is present when
    [master_audio] is a non-empty path (Python's truth value of the
    attribute). *)
Definition audio (corr_cfg : Config) : option AudioConfig :=
  match master_audio corr_cfg with
  | Some p =>
      if (p =? "")%string then None
      else Some {| path := p; beginTime := begin_time corr_cfg;
                   endTime := end_time corr_cfg |}
  | None => None
  end.

(** 1. Program name plus global flags. *)
Definition global_flags (cfg : IOutputConfig) : list string :=
  match cfg with
  | FFmpegCfg _ => ["ffmpeg"; "-y"]
  | FFplayCfg _ => ["ffmpeg"; "-nostats"]
  end.

(** 2. The raw-video input. *)
Definition video_input (corr_cfg : Config) : list string :=
  [ ("-f rawvideo -pixel_format rgb24 -video_size "
       ++ str_int (width (render corr_cfg)) ++ "x"
       ++ str_int (height (render corr_cfg)))%string;
    ("-framerate " ++ fps_str (render_fps corr_cfg))%string;
    "-i -" ].

(** 3. Seek, audio input, trim. *)
Definition seek (a : AudioConfig) : list string :=
  [("-ss " ++ float_str (beginTime a))%string].

Definition audio_input (a : AudioConfig) : list string :=
  ["-i"; shlex.quote (abspath (path a))].

Definition trim (a : AudioConfig) : list string :=
  match endTime a with
  | Some e => [("-to " ++ float_str (float_sub e (beginTime a)))%string]
  | None => []
  end.

Definition audio_groups (a : option AudioConfig) : list string :=
  match a with
  | Some a => seek a ++ audio_input a ++ trim a
  | None => []
  end.

(** 4. The encoding templates: the video template, the audio template
    when audio is present, and the extra arguments the caller supplied
    (the file sink's [args]; the preview has none). *)
Definition extra_arguments (cfg : IOutputConfig) : list string :=
  match cfg with
  | FFmpegCfg c => [FFmpegOutputConfig.args c]
  | FFplayCfg _ => []
  end.

Definition output_templates (cfg : IOutputConfig) (a : option AudioConfig)
  : list string :=
  [video_template cfg]
  ++ match a with
     | Some _ => [audio_template cfg]
     | None => []
     end
  ++ extra_arguments cfg.

(** 5. The output target: for the preview a container override comes
    first; then the destination, a file path or [-] for standard output,
    handed over as one argument that is not tokenised. *)
Definition container_override (cfg : IOutputConfig) : list string :=
  match cfg with
  | FFmpegCfg _ => []
  | FFplayCfg _ => ["-f nut"]
  end.

Definition destination (cfg : IOutputConfig) : string :=
  match cfg with
  | FFmpegCfg c =>
      match FFmpegOutputConfig.path c with
      | Some p => abspath p
      | None => "-"
      end
  | FFplayCfg _ => "-"
  end.

Definition target (cfg : IOutputConfig) : list string :=
  match cfg with
  | FFmpegCfg _ => [destination cfg]
  | FFplayCfg _ => ["-f"; "nut"; destination cfg]
  end.

(** The argument groups that are tokenised, in the specification's
    order. *)
Definition groups (cfg : IOutputConfig) (corr_cfg : Config) : list string :=
  global_flags cfg
  ++ video_input corr_cfg
  ++ audio_groups (audio corr_cfg)
  ++ output_templates cfg (audio corr_cfg)
  ++ container_override cfg.

(** How the encoder's standard output is connected: inherited by the file
    sink, a pipe towards the player in the preview. *)
Definition encoder_stdout (cfg : IOutputConfig) : redirect :=
  match cfg with
  | FFmpegCfg _ => Inherit
  | FFplayCfg _ => PIPE
  end.

End CommandTemplate.
End CommandTemplate.

(** *** Reading a log *)

Section Logs.
Context {host : Host}.

(** A [wait()] with no timeout. *)
Definition is_untimed_wait (ev : event) : bool :=
  match ev with
  | EvWait _ None _ => true
  | _ => false
  end.

(** A terminate or kill signal. *)
Definition is_signal (ev : event) : bool :=
  match ev with
  | EvTerminate _ | EvKill _ => true
  | _ => false
  end.

(** The processes that were sent the graceful terminate signal, in
    order. *)
Fixpoint terminated (evs : list event) : list Popen :=
  match evs with
  | [] => []
  | EvTerminate p :: rest => p :: terminated rest
  | _ :: rest => terminated rest
  end.

(** What [terminate] does to one process: signal, wait one second, and
    either the process exited or it is killed. *)
Definition exited_on_request (p : Popen) (evs : list event) : Prop :=
  exists code, evs = [EvTerminate p; EvWait p (Some 1) (Some code)].

Definition killed_on_timeout (p : Popen) (evs : list event) : Prop :=
  evs = [EvTerminate p; EvWait p (Some 1) None; EvKill p].

Definition shut_down (p : Popen) (evs : list event) : Prop :=
  exited_on_request p evs \/ killed_on_timeout p evs.

(** The bitwise OR of the exit codes. *)
Definition or_all (codes : list Z) : Z := fold_left Z.lor codes 0.

(** The untimed waits of [close], with the codes they collected. *)
Definition waits (ps : list Popen) (codes : list Z) : list event :=
  map (fun pc => EvWait (fst pc) None (Some (snd pc))) (combine ps codes).

(** [close] swallows exactly the failures of the stream's [close()] that
    are [OSError]s ([BrokenPipeError] among them). *)
Definition absorbed (failure : option exn) : Prop :=
  forall e, failure = Some e -> isinstance e OSError = true.

(** A teardown action on process [p]: a signal, a wait, or the closing of
    one of its pipes. *)
Definition tears_down (p : Popen) (ev : event) : bool :=
  match ev with
  | EvTerminate q | EvKill q | EvWait q _ _ => Nat.eqb (pid q) (pid p)
  | EvClose f _ | EvCloseBlocked f => Nat.eqb (owner f) (pid p)
  | EvSpawn _ _ _ _ _ | EvWrite _ _ _ | EvWriteBlocked _ _ => false
  end.

(** The lexer returns tokens or raises [ValueError]; nothing else. *)
Definition tokens_or_value_error (r : result (list string)) : Prop :=
  match r with
  | Returns _ => True
  | Raises e => exists msg, e = value_error msg
  | Hangs => False
  end.

(** The seconds a list of calls may spend in timed waits: the sum of the
    timeouts given to [wait]. *)
Fixpoint wait_budget (evs : list event) : Z :=
  match evs with
  | [] => 0
  | EvWait _ (Some t) _ :: rest => t + wait_budget rest
  | _ :: rest => wait_budget rest
  end.

End Logs.

(** *** Parts of the constructors and methods, by name *)

Section Parts.
Context {host : Host}.

(** [self.bufsize] as [Output.__init__] computes it. *)
Definition buffer_size (corr_cfg : Config) : Z :=
  height (render corr_cfg) * width (render corr_cfg) * RGB_DEPTH * FRAMES_TO_BUFFER.

(** The object once [Output.__init__] has run. *)
Definition initialised (corr_cfg : Config) (cfg : IOutputConfig) (o : OutputObject)
  : OutputObject :=
  set_bufsize (buffer_size corr_cfg) (set_cfg cfg (set_corr_cfg corr_cfg o)).

(** The exception [_FFmpegProcess.popen] lets out for a failure [e] of the
    spawn. *)
Definition popen_failure (e : exn) : exn :=
  if isinstance e FileNotFoundError then missing_ffmpeg_error else e.

(** The [_FFmpegProcess] a constructor has built when it calls [popen]. *)
Definition encoder_process (cfg : IOutputConfig) (corr_cfg : Config)
  : _FFmpegProcess.t :=
  match cfg with
  | FFmpegCfg c =>
      _FFmpegProcess.append
        (_FFmpegProcess.add_output
           (_FFmpegProcess.__init__ [FFMPEG; "-y"] corr_cfg) (FFmpegCfg c))
        (FFmpegOutputConfig.args c)
  | FFplayCfg c =>
      _FFmpegProcess.append
        (_FFmpegProcess.add_output
           (_FFmpegProcess.__init__ [FFMPEG; "-nostats"] corr_cfg) (FFplayCfg c))
        "-f nut"
  end.

(** The first statement of [close]: the stream is closed, and a failure
    that is an [OSError] is swallowed. *)
Definition close_stream : M unit :=
  try_except
    (_stream <- getattr "_stream" _stream ;;
     f <- receiver "close" _stream ;;
     File_close f)
    [BrokenPipeError; OSError]
    (fun _ => ret tt).

(** The loop of [close(wait=True)]. *)
Definition wait_all (ps : list Popen) (retval : Z) : M Z :=
  for_ ps retval (fun retval popen =>
    code <- Popen_wait popen None ;;
    ret (Z.lor retval code)).

(** The loop of [terminate]: [exc] is the last [TimeoutExpired] caught. *)
Definition terminate_all (ps : list Popen) (exc : option exn) : M (option exn) :=
  for_ ps exc (fun exc popen =>
    Popen_terminate popen ;;
    try_except
      (Popen_wait popen (Some 1) ;; ret exc)
      [TimeoutExpired]
      (fun e => Popen_kill popen ;; ret (Some e))).

Definition player_command : list string := ["ffplay"; "-autoexit"; "-"].

(** The rest of [FFplayOutput.__init__] once the encoder [p1] runs: the
    player is spawned on the encoder's stdout, the parent's object for that
    stdout is closed, the sink is opened on both. *)
Definition player_stage (p1 : Popen) : M unit :=
  ffplay <- lift (shlex.split "ffplay -autoexit -") ;;
  p2 <- Popen_new ffplay (as_redirect (stdout p1)) Inherit
          FFplayOutput.default_bufsize ;;
  f <- receiver "close" (stdout p1) ;;
  File_close f ;;
  PipeOutput.open [p1; p2].

(** The spawn request for the player, given the encoder's stdout. *)
Definition player_spawn (os : OS) (log : list event) (f : File) : event :=
  EvSpawn player_command (Handle f) Inherit FFplayOutput.default_bufsize
    (spawn_reply os log player_command "ffplay" (Handle f) Inherit).

(** The encoder's spawn request, as the specification composes it. *)
Definition encoder_spawn (cfg : IOutputConfig) (corr_cfg : Config)
    (command : list string) (reply : exn + Popen) : event :=
  EvSpawn command PIPE (CommandTemplate.encoder_stdout cfg)
    (buffer_size corr_cfg) reply.

End Parts.

(* ===================================================================== *)
(** ** Concrete hosts, configurations and environments *)
(* ===================================================================== *)

Module Demo.

(** A host whose timestamps are whole seconds, printed the way Python
    prints such a float, and whose working directory is [/work]. *)
Definition posix : Host :=
  {| float := Z;
     float_sub := Z.sub;
     float_str := fun t => (str_int t ++ ".0")%string;
     fps_t := Z;
     fps_str := str_int;
     abspath := fun p =>
       match p with
       | String "/" _ => p
       | _ => ("/work/" ++ p)%string
       end |}.

(** 640x480 at 60 frames per second, audio trimmed to seconds 2..10. *)
Definition with_audio : @Config posix :=
  @Build_Config posix {| width := 640; height := 480 |}
    60 (Some "my song.wav") 2 (Some 10).

Definition silent : @Config posix :=
  @Build_Config posix {| width := 640; height := 480 |} 60 None 0 None.

(** Every executable is installed, nothing fails, every process exits
    with status [code] as soon as it is waited for. *)
Definition exiting (code : Z) : OS :=
  {| locatable := fun _ => true;
     spawn_error := fun _ _ => None;
     write_error := fun _ _ _ => None;
     close_error := fun _ _ => None;
     write_blocks := fun _ _ _ => false;
     close_blocks := fun _ _ => false;
     wait_reply := fun _ _ _ => Some code |}.

(** The encoder is installed, the player is not. *)
Definition without_ffplay : OS :=
  {| locatable := fun exe => (exe =? "ffmpeg")%string;
     spawn_error := fun _ _ => None;
     write_error := fun _ _ _ => None;
     close_error := fun _ _ => None;
     write_blocks := fun _ _ _ => false;
     close_blocks := fun _ _ => false;
     wait_reply := fun _ _ _ => Some 0 |}.

(** No executable is installed. *)
Definition nothing_installed : OS :=
  {| locatable := fun _ => false;
     spawn_error := fun _ _ => None;
     write_error := fun _ _ _ => None;
     close_error := fun _ _ => None;
     write_blocks := fun _ _ _ => false;
     close_blocks := fun _ _ => false;
     wait_reply := fun _ _ _ => Some 0 |}.

(** The downstream process has gone: writes and closes fail with EPIPE. *)
Definition broken_pipe : OS :=
  {| locatable := fun _ => true;
     spawn_error := fun _ _ => None;
     write_error := fun _ _ _ => Some (os_error EPIPE);
     close_error := fun _ _ => Some (os_error EPIPE);
     write_blocks := fun _ _ _ => false;
     close_blocks := fun _ _ => false;
     wait_reply := fun _ _ _ => Some 0 |}.

(** The first process of the chain ignores every request to exit; the
    others exit with status 0. *)
Definition first_hangs : OS :=
  {| locatable := fun _ => true;
     spawn_error := fun _ _ => None;
     write_error := fun _ _ _ => None;
     close_error := fun _ _ => None;
     write_blocks := fun _ _ _ => false;
     close_blocks := fun _ _ => false;
     wait_reply := fun _ p _ => if Nat.eqb (pid p) 0 then None else Some 0 |}.

(** The encoder is found but the OS refuses to run it (EACCES). *)
Definition permission_denied : OS :=
  {| locatable := fun _ => true;
     spawn_error := fun _ _ => Some (os_error EACCES);
     write_error := fun _ _ _ => None;
     close_error := fun _ _ => None;
     write_blocks := fun _ _ _ => false;
     close_blocks := fun _ _ => false;
     wait_reply := fun _ _ _ => Some 0 |}.

(** The encoder exits with status 1, the player is killed by signal 9
    (return code -9), whenever they are waited for. *)
Definition player_killed : OS :=
  {| locatable := fun _ => true;
     spawn_error := fun _ _ => None;
     write_error := fun _ _ _ => None;
     close_error := fun _ _ => None;
     write_blocks := fun _ _ _ => false;
     close_blocks := fun _ _ => false;
     wait_reply := fun _ p _ => if Nat.eqb (pid p) 0 then Some 1 else Some (-9) |}.

(** The second process of the chain never exits; the first exits with 0. *)
Definition second_hangs : OS :=
  {| locatable := fun _ => true;
     spawn_error := fun _ _ => None;
     write_error := fun _ _ _ => None;
     close_error := fun _ _ => None;
     write_blocks := fun _ _ _ => false;
     close_blocks := fun _ _ => false;
     wait_reply := fun _ p _ => if Nat.eqb (pid p) 1 then None else Some 0 |}.

(** A file sink whose video template has a quotation left open. *)
Definition unbalanced : IOutputConfig :=
  FFmpegCfg {| FFmpegOutputConfig.path := None;
               FFmpegOutputConfig.args := EmptyString;
               FFmpegOutputConfig.video_template := "-c:v 'libx264";
               FFmpegOutputConfig.audio_template := "-c:a aac" |}.



(** No process ever exits, whatever it is sent. *)
Definition nobody_exits : OS :=
  {| locatable := fun _ => true;
     spawn_error := fun _ _ => None;
     write_error := fun _ _ _ => None;
     close_error := fun _ _ => None;
     write_blocks := fun _ _ _ => false;
     close_blocks := fun _ _ => false;
     wait_reply := fun _ _ _ => None |}.

(** Before any constructor ran. *)
Definition initial : @State posix := {| self := blank; log := [] |}.

Definition encoder : Popen :=
  {| pid := 0; args := ["ffmpeg"; "-"];
     stdin := Some {| owner := 0; stream := Stdin |};
     stdout := Some {| owner := 0; stream := Stdout |} |}.

Definition player : Popen :=
  {| pid := 1; args := ["ffplay"; "-autoexit"; "-"];
     stdin := None; stdout := None |}.

(** A preview sink that has been opened on encoder and player. *)
Definition running : @State posix :=
  {| self := set__stream (stdin encoder) (set__pipeline [encoder; player] blank);
     log := [] |}.

Definition frame : ByteBuffer := [Byte.x00; Byte.x7f; Byte.xff].

End Demo.

(** *** The two sinks on the configurations above *)

Definition file_sink : IOutputConfig :=
  FFmpegCfg (FFmpegOutputConfig.default (Some "out.mp4")).

Definition file_sink_command : list string :=
  ["ffmpeg"; "-y";
   "-f"; "rawvideo"; "-pixel_format"; "rgb24"; "-video_size"; "640x480";
   "-framerate"; "60"; "-i"; "-";
   "-ss"; "2.0"; "-i"; "/work/my song.wav"; "-to"; "8.0";
   "-c:v"; "libx264"; "-crf"; "18"; "-preset"; "superfast";
   "-movflags"; "faststart"; "-c:a"; "aac"; "-b:a"; "384k";
   "/work/out.mp4"].

Definition preview_command : list string :=
  ["ffmpeg"; "-nostats";
   "-f"; "rawvideo"; "-pixel_format"; "rgb24"; "-video_size"; "640x480";
   "-framerate"; "60"; "-i"; "-";
   "-c:v"; "copy"; "-f"; "nut"; "-"].

Definition encoder_input : File := {| owner := 0; stream := Stdin |}.
Definition encoder_output : File := {| owner := 0; stream := Stdout |}.

(** The encoder as the preview constructor spawns it for [Demo.silent]. *)
Definition preview_encoder : Popen :=
  {| pid := 0; args := preview_command;
     stdin := Some encoder_input; stdout := Some encoder_output |}.

Definition preview_player : Popen :=
  {| pid := 1; args := player_command; stdin := None; stdout := None |}.

(** The tokens of the file sink's groups for [Demo.with_audio]. *)
Definition file_sink_tokens : list string :=
  ["ffmpeg"; "-y";
   "-f"; "rawvideo"; "-pixel_format"; "rgb24"; "-video_size"; "640x480";
   "-framerate"; "60"; "-i"; "-";
   "-ss"; "2.0"; "-i"; "/work/my song.wav"; "-to"; "8.0";
   "-c:v"; "libx264"; "-crf"; "18"; "-preset"; "superfast";
   "-movflags"; "faststart"; "-c:a"; "aac"; "-b:a"; "384k"].

(** The file sink for [Demo.with_audio], constructed where everything
    works. *)
Definition constructed_file_sink : @State Demo.posix :=
  snd (construct file_sink Demo.with_audio (Demo.exiting 0) Demo.initial).

(* ===================================================================== *)
(** ** Properties *)
(* ===================================================================== *)

(** *** Exceptions *)

Lemma caught_by_one (c : exn_class) (e : exn) :
  caught_by [c] e = isinstance e c.
Proof. unfold caught_by. cbn. apply orb_false_r. Qed.

Lemma caught_by_two (c d : exn_class) (e : exn) :
  caught_by [c; d] e = isinstance e c || isinstance e d.
Proof. unfold caught_by. cbn. now rewrite orb_false_r. Qed.

Lemma broken_pipe_instances (e : exn) :
  isinstance e BrokenPipeError = true <->
  e = os_error EPIPE \/ e = os_error ESHUTDOWN.
Proof.
  split.
  - destruct e as [errno| | | | | |]; try discriminate.
    unfold isinstance, class_of.
    destruct (errno =? EPIPE) eqn:Hp; cbn.
    + intros _. left. apply Z.eqb_eq in Hp. now subst.
    + destruct (errno =? ESHUTDOWN) eqn:Hs; cbn.
      * intros _. right. apply Z.eqb_eq in Hs. now subst.
      * destruct (errno =? ENOENT); [discriminate|].
        destruct ((errno =? EACCES) || (errno =? EPERM)); discriminate.
  - intros [-> | ->]; reflexivity.
Qed.

Lemma broken_pipe_is_os_error (e : exn) :
  isinstance e BrokenPipeError = true -> isinstance e OSError = true.
Proof.
  intros H. apply broken_pipe_instances in H. destruct H as [-> | ->]; reflexivity.
Qed.

Lemma file_not_found_instances (e : exn) :
  isinstance e FileNotFoundError = true <-> e = os_error ENOENT.
Proof.
  split.
  - destruct e as [errno| | | | | |]; try discriminate.
    unfold isinstance, class_of.
    destruct ((errno =? EPIPE) || (errno =? ESHUTDOWN)); [discriminate|].
    destruct (errno =? ENOENT) eqn:Hn.
    + intros _. apply Z.eqb_eq in Hn. now subst.
    + destruct ((errno =? EACCES) || (errno =? EPERM)); discriminate.
  - intros ->. reflexivity.
Qed.

Lemma timeout_instances (e : exn) :
  isinstance e TimeoutExpired = true <-> exists cmd t, e = timeout_expired cmd t.
Proof.
  split.
  - destruct e as [errno| | | | |cmd t|]; try discriminate.
    + unfold isinstance, class_of.
      destruct ((errno =? EPIPE) || (errno =? ESHUTDOWN)); [discriminate|].
      destruct (errno =? ENOENT); [discriminate|].
      destruct ((errno =? EACCES) || (errno =? EPERM)); discriminate.
    + intros _. now exists cmd, t.
  - intros (cmd & t & ->). reflexivity.
Qed.

(** *** [shlex]: quoting, then splitting, gives the string back *)

Lemma push_append (token : string) (c : ascii) (rest : string) :
  (shlex.push token c ++ rest)%string = (token ++ String c rest)%string.
Proof.
  unfold shlex.push. induction token as [|d token IH]; cbn; [reflexivity|].
  now rewrite IH.
Qed.

Lemma append_empty (s : string) : (s ++ EmptyString)%string = s.
Proof. induction s as [|c s IH]; cbn; [reflexivity | now rewrite IH]. Qed.

Lemma safe_is_plain (c : ascii) :
  shlex.is_safe c = true ->
  shlex.is_whitespace c = false /\ shlex.is_quote c = false
  /\ shlex.is_escape c = false.
Proof.
  destruct c as [[] [] [] [] [] [] [] []]; vm_compute; intros H;
    try discriminate H; repeat split.
Qed.

(** A run of safe characters read in the word state is appended to the
    token as it is. *)
Lemma read_safe_word (s : string) :
  shlex.all_safe s = true ->
  forall (escapedstate : shlex.lexstate) (quoted : bool) (token : string),
    shlex.read s shlex.in_word escapedstate quoted token
    = Returns (if shlex.emits (token ++ s) quoted then [(token ++ s)%string] else []).
Proof.
  induction s as [|c s IH]; intros Hs escapedstate quoted token.
  - cbn. now rewrite append_empty.
  - cbn in Hs. apply andb_prop in Hs. destruct Hs as [Hc Hs].
    destruct (safe_is_plain c Hc) as (Hw & Hq & He).
    cbn [shlex.read]. rewrite Hw, Hq, He.
    rewrite (IH Hs). now rewrite push_append.
Qed.

(** Inside single quotes every character is taken literally; a single
    quote of the original string, written as quote, double quote, quote,
    double quote, quote, closes the quotation, adds one quote character
    from inside double quotes and opens the quotation again. *)
Lemma read_single_quoted (s : string) :
  forall (escapedstate : shlex.lexstate) (quoted : bool) (token : string),
    shlex.read (shlex.replace_squotes s ++ String shlex.squote EmptyString)
      (shlex.in_quotes shlex.squote) escapedstate quoted token
    = Returns [(token ++ s)%string].
Proof.
  induction s as [|c s IH]; intros escapedstate quoted token.
  - cbn. unfold shlex.emits. now rewrite orb_true_r, append_empty.
  - cbn [shlex.replace_squotes].
    destruct (c =? shlex.squote)%char eqn:Hc.
    + apply Ascii.eqb_eq in Hc. subst c.
      cbn. rewrite IH. now rewrite push_append.
    + cbn [append shlex.read]. rewrite Hc.
      replace (shlex.is_escape c && (shlex.squote =? shlex.dquote)%char)
        with false by (now rewrite andb_false_r).
      rewrite IH. now rewrite push_append.
Qed.

(** [shlex.split(shlex.quote(s)) == [s]] for every string. *)
Lemma split_quote (s : string) : shlex.split (shlex.quote s) = Returns [s].
Proof.
  unfold shlex.quote.
  destruct (s =? "")%string eqn:He.
  - apply String.eqb_eq in He. now subst s.
  - destruct (shlex.all_safe s) eqn:Hs.
    + destruct s as [|c s]; [discriminate He|].
      cbn in Hs. apply andb_prop in Hs. destruct Hs as [Hc Hs].
      destruct (safe_is_plain c Hc) as (Hw & Hq & Hx).
      unfold shlex.split. cbn [shlex.read]. rewrite Hw, Hq, Hx.
      now rewrite (read_safe_word s Hs).
    + unfold shlex.split. cbn [append shlex.read].
      change (shlex.is_whitespace shlex.squote) with false.
      change (shlex.is_escape shlex.squote) with false.
      change (shlex.is_quote shlex.squote) with true.
      cbn beta iota. now rewrite read_single_quoted.
Qed.

(** *** [PipeOutput.open] *)

Section OpenProperties.
Context {host : Host}.

Lemma open_empty (os : OS) (st : State) :
  PipeOutput.open [] os st
  = (Raises (type_error "must provide at least one Popen argument to popens"), st).
Proof. reflexivity. Qed.

Lemma open_nonempty (os : OS) (st : State) (first : Popen) (rest : list Popen) :
  PipeOutput.open (first :: rest) os st
  = (Returns tt,
     {| self := set__stream (stdin first) (set__pipeline (first :: rest) (self st));
        log := log st |}).
Proof. reflexivity. Qed.

(** C10.  [open] called with no process raises [TypeError] and leaves the
    object as it was: no pipeline and no stream get bound.  Called with at
    least one process it returns, having bound the chain and, as the
    write target, the first process's stdin.  Consequently every sink on
    which [open] returned holds a chain of at least one process and a
    stream equal to the first process's stdin. *)
Theorem open_binds_nonempty_chain (os : OS) (st : State) :
  PipeOutput.open [] os st
  = (Raises (type_error "must provide at least one Popen argument to popens"), st)
  /\ (forall first rest,
        exists st',
          PipeOutput.open (first :: rest) os st = (Returns tt, st')
          /\ _pipeline (self st') = Some (first :: rest)
          /\ _stream (self st') = Some (stdin first)
          /\ log st' = log st)
  /\ (forall pipeline st',
        PipeOutput.open pipeline os st = (Returns tt, st') ->
        exists first rest,
          pipeline = first :: rest
          /\ _pipeline (self st') = Some (first :: rest)
          /\ _stream (self st') = Some (stdin first)).
Proof.
  split; [apply open_empty|]. split.
  - intros first rest. eexists. split; [apply open_nonempty|]. cbn. auto.
  - intros [|first rest] st' H.
    + rewrite open_empty in H. discriminate.
    + rewrite open_nonempty in H. injection H as <-.
      exists first, rest. cbn. auto.
Qed.

End OpenProperties.

(** *** [PipeOutput.write_frame] *)

Section WriteProperties.
Context {host : Host}.

Lemma write_event_failed (os : OS) (l : list event) (f : File)
    (data : ByteBuffer) (e : exn) :
  write_error os l f data = Some e ->
  write_event os l f data = EvWrite f data (Some e).
Proof. intros He. unfold write_event. now rewrite He. Qed.

Lemma write_event_done (os : OS) (l : list event) (f : File)
    (data : ByteBuffer) :
  write_error os l f data = None ->
  write_blocks os l f data = false ->
  write_event os l f data = EvWrite f data None.
Proof.
  intros He Hb. unfold write_event. now rewrite He, Hb, andb_false_r.
Qed.

Lemma close_event_completed (os : OS) (l : list event) (f : File) :
  close_blocks os l f = false ->
  close_event os l f = EvClose f (close_error os l f).
Proof.
  intros Hb. unfold close_event.
  destruct (close_error os l f); [reflexivity|].
  now rewrite Hb, andb_false_r.
Qed.

Lemma write_frame_run (os : OS) (st : State) (f : File) (frame : ByteBuffer) :
  _stream (self st) = Some (Some f) ->
  PipeOutput.write_frame frame os st
  = (match write_error os (log st) f frame with
     | None =>
         if is_writer f && write_blocks os (log st) f frame
         then Hangs else Returns None
     | Some e => if isinstance e BrokenPipeError then Returns (Some Stop) else Raises e
     end,
     record st (write_event os (log st) f frame)).
Proof.
  intros Hs.
  unfold PipeOutput.write_frame, try_except, bind, getattr, receiver, File_write.
  rewrite Hs. cbn.
  destruct (write_error os (log st) f frame) as [e|]; cbn.
  - rewrite caught_by_one.
    destruct (isinstance e BrokenPipeError); reflexivity.
  - destruct (is_writer f && write_blocks os (log st) f frame); reflexivity.
Qed.

(** C2.  On a sink whose stream is bound, [write_frame] makes one write to
    that stream.  If the write fails because the peer closed its read end
    (EPIPE, broken pipe, or ESHUTDOWN, write after shutdown: the two
    errnos of [BrokenPipeError]), [write_frame] returns [Stop] and does
    not raise; any other failure of the write is raised to the caller
    unchanged. *)
Theorem write_frame_stops_on_broken_pipe
    (os : OS) (st : State) (f : File) (frame : ByteBuffer) (e : exn) :
  _stream (self st) = Some (Some f) ->
  write_error os (log st) f frame = Some e ->
  let peer_closed := e = os_error EPIPE \/ e = os_error ESHUTDOWN in
  (peer_closed ->
     PipeOutput.write_frame frame os st
     = (Returns (Some Stop), record st (EvWrite f frame (Some e))))
  /\ (~ peer_closed ->
     PipeOutput.write_frame frame os st
     = (Raises e, record st (EvWrite f frame (Some e)))).
Proof.
  intros Hs He peer_closed.
  rewrite (write_frame_run os st f frame Hs), (write_event_failed _ _ _ _ _ He), He.
  split; intros H.
  - apply broken_pipe_instances in H. now rewrite H.
  - destruct (isinstance e BrokenPipeError) eqn:Hi; [|reflexivity].
    apply broken_pipe_instances in Hi. contradiction.
Qed.

(** A write that succeeds returns [None], the signal to continue. *)
Lemma write_frame_continues
    (os : OS) (st : State) (f : File) (frame : ByteBuffer) :
  _stream (self st) = Some (Some f) ->
  write_error os (log st) f frame = None ->
  write_blocks os (log st) f frame = false ->
  PipeOutput.write_frame frame os st
  = (Returns None, record st (EvWrite f frame None)).
Proof.
  intros Hs He Hb.
  now rewrite (write_frame_run os st f frame Hs), (write_event_done _ _ _ _ He Hb),
    He, Hb, andb_false_r.
Qed.

(** A write that can neither be buffered nor flushed never returns. *)
Lemma write_frame_blocks
    (os : OS) (st : State) (f : File) (frame : ByteBuffer) :
  _stream (self st) = Some (Some f) ->
  stream f = Stdin ->
  write_error os (log st) f frame = None ->
  write_blocks os (log st) f frame = true ->
  PipeOutput.write_frame frame os st
  = (Hangs, record st (EvWriteBlocked f frame)).
Proof.
  intros Hs Hf He Hb.
  rewrite (write_frame_run os st f frame Hs). unfold write_event, is_writer, side_of.
  now rewrite He, Hb, Hf.
Qed.

End WriteProperties.

(** *** [PipeOutput.close] *)

Section CloseProperties.
Context {host : Host}.

Lemma record_self (st : State) (ev : event) : self (record st ev) = self st.
Proof. reflexivity. Qed.

Lemma record_log (st : State) (ev : event) : log (record st ev) = log st ++ [ev].
Proof. reflexivity. Qed.

Lemma or_from_zero (codes : list Z) (acc : Z) :
  fold_left Z.lor codes acc = 0 <-> acc = 0 /\ Forall (fun c => c = 0) codes.
Proof.
  revert acc. induction codes as [|c codes IH]; intros acc; cbn.
  - split; [intros ->; auto | tauto].
  - rewrite IH, Z.lor_eq_0_iff. split.
    + intros [[-> ->] H]. auto.
    + intros [-> H]. inversion H; subst. auto.
Qed.

Lemma or_all_zero (codes : list Z) :
  or_all codes = 0 <-> Forall (fun c => c = 0) codes.
Proof. unfold or_all. rewrite or_from_zero. tauto. Qed.

Lemma close_stream_run (os : OS) (st : State) (f : File) :
  _stream (self st) = Some (Some f) ->
  absorbed (close_error os (log st) f) ->
  close_blocks os (log st) f = false ->
  close_stream os st = (Returns tt, record st (EvClose f (close_error os (log st) f))).
Proof.
  intros Hs Ha Hb.
  unfold close_stream, try_except, bind, getattr, receiver, File_close.
  rewrite Hs. cbn. rewrite (close_event_completed os (log st) f Hb).
  destruct (close_error os (log st) f) as [e|] eqn:He; cbn.
  - rewrite caught_by_two, (Ha e eq_refl), orb_true_r. reflexivity.
  - now rewrite Hb, andb_false_r.
Qed.

(** The close of a stream whose buffer cannot be flushed never returns:
    nothing follows it. *)
Lemma close_stream_blocks (os : OS) (st : State) (f : File) :
  _stream (self st) = Some (Some f) ->
  stream f = Stdin ->
  close_error os (log st) f = None ->
  close_blocks os (log st) f = true ->
  close_stream os st = (Hangs, record st (EvCloseBlocked f)).
Proof.
  intros Hs Hf He Hb.
  unfold close_stream, try_except, bind, getattr, receiver, File_close, close_event,
    is_writer, side_of.
  rewrite Hs. cbn. now rewrite He, Hb, Hf.
Qed.

Lemma close_blocks_run (wait : bool) (os : OS) (st : State) (f : File) :
  _stream (self st) = Some (Some f) ->
  stream f = Stdin ->
  close_error os (log st) f = None ->
  close_blocks os (log st) f = true ->
  PipeOutput.close wait os st = (Hangs, record st (EvCloseBlocked f)).
Proof.
  intros Hs Hf He Hb. change (PipeOutput.close wait) with
    (close_stream ;;
     if negb wait then ret 0
     else _pipeline <- getattr "_pipeline" _pipeline ;; wait_all _pipeline 0).
  unfold bind at 1. now rewrite (close_stream_blocks os st f Hs Hf He Hb).
Qed.

Lemma close_unfold (wait : bool) :
  PipeOutput.close wait
  = (close_stream ;;
     if negb wait then ret 0
     else _pipeline <- getattr "_pipeline" _pipeline ;; wait_all _pipeline 0).
Proof. reflexivity. Qed.

Lemma wait_all_exits (os : OS) (ps : list Popen) :
  (forall l p, In p ps -> wait_reply os l p None <> None) ->
  forall (st : State) (acc : Z),
  exists codes,
    List.length codes = List.length ps
    /\ wait_all ps acc os st
       = (Returns (fold_left Z.lor codes acc),
          {| self := self st; log := log st ++ waits ps codes |}).
Proof.
  induction ps as [|p ps IH]; intros Hexit st acc.
  - exists []. split; [reflexivity|]. cbn. rewrite app_nil_r. now destruct st.
  - assert (Hp : wait_reply os (log st) p None <> None) by (apply Hexit; now left).
    destruct (wait_reply os (log st) p None) as [c|] eqn:Hc; [|contradiction].
    destruct (IH (fun l q Hq => Hexit l q (or_intror Hq))
                 (record st (EvWait p None (Some c))) (Z.lor acc c))
      as (codes & Hlen & Hrun).
    exists (c :: codes). split; [cbn; now rewrite Hlen|].
    unfold wait_all in *. cbn [for_]. unfold bind at 1. unfold bind at 1.
    unfold Popen_wait at 1. rewrite Hc. cbn [ret].
    rewrite Hrun. cbn. now rewrite <- app_assoc.
Qed.

(** Whatever the processes do, the loop only ever waits: it sends no
    signal, and it waits at least once when the chain is not empty. *)
Lemma wait_all_only_waits (os : OS) (ps : list Popen) :
  forall (st : State) (acc : Z),
  exists r evs,
    wait_all ps acc os st = (r, {| self := self st; log := log st ++ evs |})
    /\ forallb is_untimed_wait evs = true
    /\ (ps <> [] -> evs <> []).
Proof.
  induction ps as [|p ps IH]; intros st acc.
  - exists (Returns acc), []. cbn. rewrite app_nil_r. destruct st. auto.
  - unfold wait_all in *. cbn [for_]. unfold bind at 1. unfold bind at 1.
    unfold Popen_wait at 1.
    destruct (wait_reply os (log st) p None) as [c|] eqn:Hc; cbn [ret].
    + destruct (IH (record st (EvWait p None (Some c))) (Z.lor acc c))
        as (r & evs & Hrun & Hw & _).
      exists r, (EvWait p None (Some c) :: evs).
      rewrite Hrun. cbn. rewrite <- app_assoc. repeat split; auto. discriminate.
    + exists Hangs, [EvWait p None None]. repeat split; auto. discriminate.
Qed.

(** C4.  On an opened sink whose processes all exit and whose stream's
    close completes, [close(wait=True)] closes the stream, then waits
    (without timeout) for every process of the chain in order, and
    returns the bitwise OR of the exit codes it collected.  That status is 0 if and only if every collected code is
    0; so it is non-zero as soon as one process of the chain exits
    non-zero. *)
Theorem close_returns_or_of_exit_codes
    (os : OS) (st : State) (f : File) (ps : list Popen) :
  _stream (self st) = Some (Some f) ->
  _pipeline (self st) = Some ps ->
  absorbed (close_error os (log st) f) ->
  close_blocks os (log st) f = false ->
  (forall l p, In p ps -> wait_reply os l p None <> None) ->
  exists codes,
    List.length codes = List.length ps
    /\ PipeOutput.close true os st
       = (Returns (or_all codes),
          {| self := self st;
             log := log st ++ EvClose f (close_error os (log st) f) :: waits ps codes |})
    /\ (or_all codes = 0 <-> Forall (fun c => c = 0) codes)
    /\ (forall c, In c codes -> c <> 0 -> or_all codes <> 0).
Proof.
  intros Hs Hp Ha Hb Hexit.
  destruct (wait_all_exits os ps Hexit
              (record st (EvClose f (close_error os (log st) f))) 0)
    as (codes & Hlen & Hrun).
  exists codes. split; [exact Hlen|]. split; [|split].
  - rewrite close_unfold. unfold bind at 1.
    rewrite (close_stream_run os st f Hs Ha Hb). cbn [negb].
    unfold bind, getattr. rewrite record_self, Hp, Hrun.
    cbn. now rewrite <- app_assoc.
  - apply or_all_zero.
  - intros c Hin Hc Hz. apply or_all_zero in Hz.
    rewrite Forall_forall in Hz. exact (Hc (Hz c Hin)).
Qed.

(** [close(wait=False)]: one call, the close of the stream; status 0. *)
Lemma close_nowait_run (os : OS) (st : State) (f : File) :
  _stream (self st) = Some (Some f) ->
  absorbed (close_error os (log st) f) ->
  close_blocks os (log st) f = false ->
  PipeOutput.close false os st
  = (Returns 0, record st (EvClose f (close_error os (log st) f))).
Proof.
  intros Hs Ha Hb. rewrite close_unfold. unfold bind at 1.
  now rewrite (close_stream_run os st f Hs Ha Hb).
Qed.


End CloseProperties.

(** *** [PipeOutput.terminate] *)

Section TerminateProperties.
Context {host : Host}.

Lemma terminate_unfold :
  PipeOutput.terminate
  = (PipeOutput.close false ;;
     _pipeline <- getattr "_pipeline" _pipeline ;;
     exc <- terminate_all _pipeline None ;;
     match exc with
     | Some e => raise e
     | None => ret tt
     end).
Proof. reflexivity. Qed.

(** One round of the loop. *)
Lemma terminate_one (os : OS) (st : State) (p : Popen) (exc : option exn) :
  let reply := wait_reply os (log st ++ [EvTerminate p]) p (Some 1) in
  (Popen_terminate p ;;
   try_except
     (Popen_wait p (Some 1) ;; ret exc)
     [TimeoutExpired]
     (fun e => Popen_kill p ;; ret (Some e))) os st
  = match reply with
    | Some code =>
        (Returns exc,
         {| self := self st;
            log := log st ++ [EvTerminate p; EvWait p (Some 1) (Some code)] |})
    | None =>
        (Returns (Some (timeout_expired (args p) 1)),
         {| self := self st;
            log := log st ++ [EvTerminate p; EvWait p (Some 1) None; EvKill p] |})
    end.
Proof.
  intros reply. unfold bind at 1. unfold Popen_terminate at 1.
  unfold try_except, bind, Popen_wait. rewrite record_log. fold reply.
  destruct reply as [code|]; cbn.
  - unfold record. cbn. now rewrite <- app_assoc.
  - rewrite caught_by_one. cbn. unfold Popen_kill, record. cbn.
    now rewrite <- !app_assoc.
Qed.

(** The loop signals every process of the chain, in order, whatever the
    earlier ones did; it ends with the exception of the last process that
    timed out, if any. *)
Lemma terminate_all_run (os : OS) (ps : list Popen) :
  forall (st : State) (exc : option exn),
  exists segs exc',
    terminate_all ps exc os st
    = (Returns exc', {| self := self st; log := log st ++ List.concat segs |})
    /\ Forall2 shut_down ps segs
    /\ ((exc' = exc /\ Forall2 exited_on_request ps segs)
        \/ (exists p seg,
              In (p, seg) (combine ps segs)
              /\ killed_on_timeout p seg
              /\ exc' = Some (timeout_expired (args p) 1))).
Proof.
  induction ps as [|p ps IH]; intros st exc.
  - exists [], exc. cbn. rewrite app_nil_r. destruct st. repeat split; auto.
  - unfold terminate_all in *. cbn [for_]. unfold bind at 1.
    rewrite terminate_one.
    destruct (wait_reply os (log st ++ [EvTerminate p]) p (Some 1)) as [code|].
    + match goal with |- context [for_ ps exc ?body os ?st1] =>
        destruct (IH st1 exc) as (segs & exc' & Hrun & Hshape & Hres)
      end.
      exists ([EvTerminate p; EvWait p (Some 1) (Some code)] :: segs), exc'.
      rewrite Hrun. cbn [self log List.concat]. rewrite <- app_assoc.
      split; [reflexivity|]. split.
      * constructor; [left; now exists code | exact Hshape].
      * destruct Hres as [[-> Hall] | (q & seg & Hin & Hk & ->)].
        -- left. split; [reflexivity|]. constructor; [now exists code | exact Hall].
        -- right. exists q, seg. split; [right; exact Hin | auto].
    + match goal with |- context [for_ ps ?exc1 ?body os ?st1] =>
        destruct (IH st1 exc1) as (segs & exc' & Hrun & Hshape & Hres)
      end.
      exists ([EvTerminate p; EvWait p (Some 1) None; EvKill p] :: segs), exc'.
      rewrite Hrun. cbn [self log List.concat]. rewrite <- app_assoc.
      split; [reflexivity|]. split.
      * constructor; [right; reflexivity | exact Hshape].
      * right. destruct Hres as [[-> Hall] | (q & seg & Hin & Hk & ->)].
        -- exists p, [EvTerminate p; EvWait p (Some 1) None; EvKill p].
           split; [left; reflexivity | split; reflexivity].
        -- exists q, seg. split; [right; exact Hin | auto].
Qed.

Lemma shut_down_terminated (ps : list Popen) (segs : list (list event)) :
  Forall2 shut_down ps segs -> terminated (List.concat segs) = ps.
Proof.
  induction 1 as [|p seg ps segs Hp _ IH]; [reflexivity|].
  cbn [List.concat]. destruct Hp as [[code ->] | ->]; cbn; now rewrite IH.
Qed.

Lemma shut_down_signals (ps : list Popen) (segs : list (list event)) :
  Forall2 shut_down ps segs ->
  existsb is_untimed_wait (List.concat segs) = false
  /\ (ps <> [] -> existsb is_signal (List.concat segs) = true).
Proof.
  induction 1 as [|p seg ps segs Hp _ [IHw IHs]]; [split; [reflexivity | congruence]|].
  cbn [List.concat]. rewrite !existsb_app, IHw.
  destruct Hp as [[code ->] | ->]; cbn; auto.
Qed.

(** When the close of the stream never returns, neither does
    [terminate]: the loop over the chain is not reached and no process
    is signalled. *)
Lemma terminate_blocked_by_close (os : OS) (st : State) (f : File) :
  _stream (self st) = Some (Some f) ->
  stream f = Stdin ->
  close_error os (log st) f = None ->
  close_blocks os (log st) f = true ->
  PipeOutput.terminate os st = (Hangs, record st (EvCloseBlocked f)).
Proof.
  intros Hs Hf He Hb. rewrite terminate_unfold. unfold bind at 1.
  now rewrite (close_blocks_run false os st f Hs Hf He Hb).
Qed.


End TerminateProperties.

(** *** Scoped use: [__exit__] and the [with] statement *)

Section ScopedProperties.
Context {host : Host}.

(** The normal path: only the stream's close and untimed waits. *)
Lemma close_wait_path (os : OS) (st : State) (f : File) (ps : list Popen) :
  _stream (self st) = Some (Some f) ->
  _pipeline (self st) = Some ps ->
  ps <> [] ->
  absorbed (close_error os (log st) f) ->
  close_blocks os (log st) f = false ->
  exists r evs,
    PipeOutput.close true os st
    = (r, {| self := self st; log := log st ++ evs |})
    /\ existsb is_untimed_wait evs = true
    /\ existsb is_signal evs = false.
Proof.
  intros Hs Hp Hne Ha Hb.
  destruct (wait_all_only_waits os ps
              (record st (EvClose f (close_error os (log st) f))) 0)
    as (r & evs & Hrun & Hw & Hn).
  exists r, (EvClose f (close_error os (log st) f) :: evs).
  split; [|split].
  - rewrite close_unfold. unfold bind at 1.
    rewrite (close_stream_run os st f Hs Ha Hb). cbn [negb].
    unfold bind, getattr. rewrite record_self, Hp, Hrun.
    cbn. now rewrite <- app_assoc.
  - cbn. destruct evs as [|ev evs]; [now destruct (Hn Hne)|].
    cbn in Hw |- *. apply andb_prop in Hw. now rewrite (proj1 Hw).
  - cbn. clear Hrun Hn. induction evs as [|ev evs IH]; [reflexivity|].
    cbn in Hw |- *. apply andb_prop in Hw. destruct Hw as [Hev Hw].
    rewrite (IH Hw), orb_false_r. destruct ev as [| | | | | | |p [t|] c]; now try discriminate.
Qed.

(** The exceptional path: the stream's close, then signals and timed
    waits only. *)
Lemma terminate_path (os : OS) (st : State) (f : File) (ps : list Popen) :
  _stream (self st) = Some (Some f) ->
  _pipeline (self st) = Some ps ->
  ps <> [] ->
  absorbed (close_error os (log st) f) ->
  close_blocks os (log st) f = false ->
  exists r evs,
    PipeOutput.terminate os st
    = (r, {| self := self st; log := log st ++ evs |})
    /\ existsb is_signal evs = true
    /\ existsb is_untimed_wait evs = false
    /\ r <> Hangs.
Proof.
  intros Hs Hp Hne Ha Hb.
  destruct (terminate_all_run os ps
              (record st (EvClose f (close_error os (log st) f))) None)
    as (segs & exc & Hrun & Hshape & Hres).
  exists (match exc with Some e => Raises e | None => Returns tt end).
  exists (EvClose f (close_error os (log st) f) :: List.concat segs).
  split; [|split; [|split]].
  - rewrite terminate_unfold. unfold bind at 1.
    rewrite (close_nowait_run os st f Hs Ha Hb).
    unfold bind at 1. unfold getattr at 1. rewrite record_self, Hp.
    unfold bind at 1. rewrite Hrun. cbn [self log record].
    rewrite <- app_assoc. cbn [app].
    destruct exc; reflexivity.
  - cbn [existsb is_signal orb]. now apply (shut_down_signals ps segs).
  - cbn [existsb is_untimed_wait orb]. now apply (shut_down_signals ps segs).
  - destruct exc; discriminate.
Qed.

(** C8.  Leaving a [with] block over an opened sink, the close of whose
    stream completes, runs exactly one of the two shutdown paths.  When the body returns, the block invokes
    [close(wait=True)]: after the body, the log shows untimed waits and no
    terminate or kill signal.  When the body raises, the block invokes
    [terminate()]: after the body, the log shows signals and no untimed
    wait, and the body's exception (or the timeout of [terminate]) is
    raised.  Never both paths, never neither. *)
Theorem with_block_runs_exactly_one_shutdown_path
    (A : Type) (body : M A) (os : OS) (st st1 : State) (r1 : result A)
    (f : File) (ps : list Popen) :
  body os st = (r1, st1) ->
  r1 <> Hangs ->
  _stream (self st1) = Some (Some f) ->
  _pipeline (self st1) = Some ps ->
  ps <> [] ->
  absorbed (close_error os (log st1) f) ->
  close_blocks os (log st1) f = false ->
  exists r evs,
    PipeOutput.with_ body os st
    = (r, {| self := self st1; log := log st1 ++ evs |})
    /\ match r1 with
       | Returns a =>
           PipeOutput.with_ body os st = (PipeOutput.close true ;; ret a) os st1
           /\ existsb is_untimed_wait evs = true
           /\ existsb is_signal evs = false
       | Raises e =>
           PipeOutput.with_ body os st = (PipeOutput.terminate ;; raise e) os st1
           /\ existsb is_signal evs = true
           /\ existsb is_untimed_wait evs = false
           /\ exists e', r = Raises e'
       | Hangs => False
       end.
Proof.
  intros Hbody Hfin Hs Hp Hne Ha Hb.
  unfold PipeOutput.with_. rewrite Hbody.
  destruct r1 as [a | e |]; [| |contradiction].
  - destruct (close_wait_path os st1 f ps Hs Hp Hne Ha Hb) as (r & evs & Hrun & Hw & Hn).
    unfold PipeOutput.__exit__, bind. rewrite Hrun.
    exists (match r with Returns _ => Returns a | Raises e => Raises e | Hangs => Hangs end), evs.
    split; [destruct r; reflexivity|]. split; [|split; assumption].
    destruct r; reflexivity.
  - destruct (terminate_path os st1 f ps Hs Hp Hne Ha Hb)
      as (r & evs & Hrun & Hsig & Hw & Hr).
    unfold PipeOutput.__exit__, bind. rewrite Hrun.
    exists (match r with Returns _ => Raises e | Raises e' => Raises e' | Hangs => Hangs end), evs.
    split; [destruct r; reflexivity|]. split; [reflexivity|].
    split; [assumption|]. split; [assumption|].
    destruct r as [[]|e'|]; [now exists e | now exists e' | contradiction].
Qed.

(** [__exit__] itself: the class of the exception selects the path. *)
Lemma exit_dispatch (exc_type : option exn_class) :
  PipeOutput.__exit__ exc_type
  = match exc_type with
    | None => PipeOutput.close true ;; ret tt
    | Some _ => PipeOutput.terminate
    end.
Proof. reflexivity. Qed.

End ScopedProperties.

(** *** Command generation *)

Section CommandProperties.
Context {host : Host}.

Lemma audio_present (corr_cfg : Config) (a : CommandTemplate.AudioConfig) :
  CommandTemplate.audio corr_cfg = Some a ->
  truthy (master_audio corr_cfg) = true
  /\ master_audio corr_cfg = Some (CommandTemplate.path a)
  /\ begin_time corr_cfg = CommandTemplate.beginTime a
  /\ end_time corr_cfg = CommandTemplate.endTime a.
Proof.
  unfold CommandTemplate.audio, truthy.
  destruct (master_audio corr_cfg) as [p|]; [|discriminate].
  destruct (p =? "")%string; [discriminate|].
  intros [= <-]. cbn. auto.
Qed.

Lemma audio_absent (corr_cfg : Config) :
  CommandTemplate.audio corr_cfg = None ->
  truthy (master_audio corr_cfg) = false.
Proof.
  unfold CommandTemplate.audio, truthy.
  destruct (master_audio corr_cfg) as [p|]; [|reflexivity].
  now destruct (p =? "")%string.
Qed.

(** The template list the code accumulates, append by append, is the
    specification's list of groups. *)
Lemma encoder_templates (cfg : IOutputConfig) (corr_cfg : Config) :
  _FFmpegProcess.templates (encoder_process cfg corr_cfg)
  = CommandTemplate.groups cfg corr_cfg.
Proof.
  unfold CommandTemplate.groups, CommandTemplate.audio_groups,
    CommandTemplate.output_templates.
  destruct (CommandTemplate.audio corr_cfg) as [a|] eqn:Ha.
  - destruct (audio_present corr_cfg a Ha) as (Ht & Hm & Hb & He).
    unfold CommandTemplate.trim, CommandTemplate.seek, CommandTemplate.audio_input.
    rewrite <- Hb, <- He.
    destruct cfg as [c|c]; cbn;
      unfold _FFmpegProcess.add_output, _FFmpegProcess.__init__; cbn; rewrite Ht, Hm;
      destruct (end_time corr_cfg); cbn; rewrite Ht; cbn;
      rewrite <- ?app_assoc; reflexivity.
  - pose proof (audio_absent corr_cfg Ha) as Ht.
    destruct cfg as [c|c]; cbn;
      unfold _FFmpegProcess.add_output, _FFmpegProcess.__init__; cbn; rewrite Ht;
      cbn; rewrite Ht; cbn; rewrite <- ?app_assoc; reflexivity.
Qed.

Lemma split_all_app (xs ys : list string) (a b : list string) :
  split_all xs = Returns a ->
  split_all ys = Returns b ->
  split_all (xs ++ ys) = Returns (a ++ b).
Proof.
  revert a. induction xs as [|x xs IH]; intros a Ha Hb; cbn in *.
  - injection Ha as <-. exact Hb.
  - destruct (shlex.split x) as [tx| |]; try discriminate.
    destruct (split_all xs) as [txs| |]; try discriminate.
    injection Ha as <-. rewrite (IH txs eq_refl Hb). now rewrite app_assoc.
Qed.

Lemma split_all_head (x : string) (xs tx args : list string) :
  shlex.split x = Returns tx ->
  split_all (x :: xs) = Returns args ->
  exists rest, split_all xs = Returns rest /\ args = tx ++ rest.
Proof.
  intros Hx. cbn. rewrite Hx.
  destruct (split_all xs) as [rest| |]; try discriminate.
  intros [= <-]. now exists rest.
Qed.

(** The audio input group contributes two tokens: [-i] and the absolute
    path of the audio file, whatever characters the path holds. *)
Lemma audio_input_tokens (a : CommandTemplate.AudioConfig) :
  split_all (CommandTemplate.audio_input a)
  = Returns ["-i"; abspath (CommandTemplate.path a)].
Proof.
  unfold CommandTemplate.audio_input. cbn [split_all].
  change (shlex.split "-i") with (@Returns (list string) ["-i"]).
  now rewrite split_quote.
Qed.

Lemma split_program_name : shlex.split "ffmpeg" = Returns ["ffmpeg"].
Proof. reflexivity. Qed.

(** The encoder's command starts with the program name. *)
Lemma groups_start_with_ffmpeg (cfg : IOutputConfig) (corr_cfg : Config)
    (args : list string) :
  split_all (CommandTemplate.groups cfg corr_cfg) = Returns args ->
  exists rest, args = "ffmpeg" :: rest.
Proof.
  unfold CommandTemplate.groups. intros H.
  destruct cfg; cbn [CommandTemplate.global_flags app] in H;
    destruct (split_all_head _ _ _ args split_program_name H) as (rest & _ & ->);
    now exists rest.
Qed.

(** What [popen] does once the templates are tokenised: one spawn request,
    with the tokens followed by the extra arguments; a failure that is
    [FileNotFoundError] comes out as [MissingFFmpegError]. *)
Lemma popen_run (process : _FFmpegProcess.t) (extra : list string) (size : Z)
    (out : redirect) (os : OS) (st : State) (args : list string)
    (exe : string) (rest : list string) :
  _FFmpegProcess._generate_args process = Returns args ->
  args ++ extra = exe :: rest ->
  let reply := spawn_reply os (log st) (exe :: rest) exe PIPE out in
  _FFmpegProcess.popen process extra size out os st
  = (match reply with
     | inl e => Raises (popen_failure e)
     | inr p => Returns p
     end,
     record st (EvSpawn (exe :: rest) PIPE out size reply)).
Proof.
  intros Hargs Hcmd reply.
  unfold _FFmpegProcess.popen, try_except, bind, lift. rewrite Hargs.
  unfold Popen_new. rewrite Hcmd. fold reply.
  destruct reply as [e|p]; [|reflexivity].
  rewrite caught_by_one. unfold popen_failure.
  destruct (isinstance e FileNotFoundError); reflexivity.
Qed.

Lemma popen_untokenised (process : _FFmpegProcess.t) (extra : list string)
    (size : Z) (out : redirect) (os : OS) (st : State) (e : exn) :
  _FFmpegProcess._generate_args process = Raises e ->
  isinstance e FileNotFoundError = false ->
  _FFmpegProcess.popen process extra size out os st = (Raises e, st).
Proof.
  intros Hargs He.
  unfold _FFmpegProcess.popen, try_except, bind, lift. rewrite Hargs.
  now rewrite caught_by_one, He.
Qed.

Lemma output_init_run (corr_cfg : Config) (cfg : IOutputConfig) (os : OS)
    (st : State) :
  Output.__init__ corr_cfg cfg os st
  = (Returns tt, {| self := initialised corr_cfg cfg (self st); log := log st |}).
Proof. reflexivity. Qed.

(** Both constructors, up to and including the spawn of the encoder. *)
Lemma construct_unfold (cfg : IOutputConfig) (corr_cfg : Config) :
  construct cfg corr_cfg
  = (Output.__init__ corr_cfg cfg ;;
     size <- getattr "bufsize" bufsize ;;
     p1 <- _FFmpegProcess.popen (encoder_process cfg corr_cfg)
             [CommandTemplate.destination cfg] size
             (CommandTemplate.encoder_stdout cfg) ;;
     match cfg with
     | FFmpegCfg _ => PipeOutput.open [p1]
     | FFplayCfg _ => player_stage p1
     end).
Proof. destruct cfg; reflexivity. Qed.

Lemma player_stage_run (p1 : Popen) (f : File) (os : OS) (st : State) :
  stdout p1 = Some f ->
  stream f = Stdout ->
  player_stage p1 os st
  = match spawn_reply os (log st) player_command "ffplay" (Handle f) Inherit with
    | inl e => (Raises e, record st (player_spawn os (log st) f))
    | inr p2 =>
        let st2 := record st (player_spawn os (log st) f) in
        let failure := close_error os (log st2) f in
        (match failure with
         | Some e => Raises e
         | None => Returns tt
         end,
         {| self := match failure with
                    | Some _ => self st
                    | None => set__stream (stdin p1) (set__pipeline [p1; p2] (self st))
                    end;
            log := log st2 ++ [EvClose f failure] |})
    end.
Proof.
  intros Hout Hread. unfold player_stage, bind, lift. cbn [shlex.split].
  change (shlex.split "ffplay -autoexit -") with (Returns player_command).
  cbn beta iota. unfold Popen_new, player_command at 1. rewrite Hout.
  cbn [as_redirect]. unfold player_spawn. fold player_command.
  destruct (spawn_reply os (log st) player_command "ffplay" (Handle f) Inherit)
    as [e|p2]; [reflexivity|].
  cbn [receiver ret]. unfold File_close, close_event, is_writer, side_of.
  rewrite Hread. cbn [pipe_side_eqb andb].
  destruct (close_error os _ f) as [e|]; reflexivity.
Qed.

Lemma spawn_reply_popen (os : OS) (log : list event) (args : list string)
    (exe : string) (sin sout : redirect) (p : Popen) :
  spawn_reply os log args exe sin sout = inr p ->
  p = new_popen (next_pid log) args sin sout.
Proof.
  unfold spawn_reply.
  destruct (if locatable os exe then spawn_error os log args else Some (os_error ENOENT));
    [discriminate | now intros [= <-]].
Qed.

(** A constructor, once the groups are tokenised: the encoder is spawned
    with the tokens followed by the destination; what follows depends on
    the sink. *)
Lemma construct_run (cfg : IOutputConfig) (corr_cfg : Config) (os : OS)
    (st : State) (args : list string) :
  split_all (CommandTemplate.groups cfg corr_cfg) = Returns args ->
  let command := args ++ [CommandTemplate.destination cfg] in
  let reply :=
    spawn_reply os (log st) command "ffmpeg" PIPE (CommandTemplate.encoder_stdout cfg) in
  let st1 :=
    {| self := initialised corr_cfg cfg (self st);
       log := log st ++ [encoder_spawn cfg corr_cfg command reply] |} in
  construct cfg corr_cfg os st
  = match reply with
    | inl e => (Raises (popen_failure e), st1)
    | inr p1 =>
        match cfg with
        | FFmpegCfg _ => PipeOutput.open [p1] os st1
        | FFplayCfg _ => player_stage p1 os st1
        end
    end.
Proof.
  intros Hargs command reply st1.
  destruct (groups_start_with_ffmpeg cfg corr_cfg args Hargs) as (rest & Hrest).
  rewrite construct_unfold. unfold bind at 1. rewrite output_init_run.
  unfold bind at 1. unfold getattr at 1. cbn [self bufsize initialised set_bufsize].
  unfold bind at 1.
  rewrite (popen_run (encoder_process cfg corr_cfg) _ _ _ os _ args
             "ffmpeg" (rest ++ [CommandTemplate.destination cfg])).
  - cbn [log]. subst command reply st1. rewrite Hrest. cbn [app].
    unfold record, encoder_spawn. cbn [self log].
    destruct (spawn_reply os (log st) _ "ffmpeg" PIPE _) as [e|p1]; [reflexivity|].
    destruct cfg; reflexivity.
  - unfold _FFmpegProcess._generate_args. now rewrite encoder_templates.
  - now rewrite Hrest.
Qed.

End CommandProperties.

Section ConstructorProperties.
Context {host : Host}.

Lemma groups_tokenised (cfg : IOutputConfig) (corr_cfg : Config)
    (global video audio output : list string) :
  split_all (CommandTemplate.global_flags cfg) = Returns global ->
  split_all (CommandTemplate.video_input corr_cfg) = Returns video ->
  split_all (CommandTemplate.audio_groups (CommandTemplate.audio corr_cfg))
    = Returns audio ->
  split_all (CommandTemplate.output_templates cfg (CommandTemplate.audio corr_cfg))
    = Returns output ->
  exists args,
    split_all (CommandTemplate.groups cfg corr_cfg) = Returns args
    /\ args ++ [CommandTemplate.destination cfg]
       = global ++ video ++ audio ++ output ++ CommandTemplate.target cfg.
Proof.
  intros Hg Hv Ha Ho. unfold CommandTemplate.groups.
  destruct cfg as [c|c].
  - exists (global ++ video ++ audio ++ output ++ []). split.
    + auto using split_all_app.
    + cbn [CommandTemplate.target]. now rewrite <- !app_assoc.
  - exists (global ++ video ++ audio ++ output ++ ["-f"; "nut"]). split.
    + auto using split_all_app.
    + cbn [CommandTemplate.target CommandTemplate.destination].
      now rewrite <- !app_assoc.
Qed.

(** When the audio groups are present, read off the specification's list. *)
Lemma audio_groups_presence (a : option CommandTemplate.AudioConfig) :
  (CommandTemplate.audio_groups a = [] <-> a = None)
  /\ (forall x, a = Some x ->
        CommandTemplate.audio_groups a
        = CommandTemplate.seek x ++ CommandTemplate.audio_input x ++ CommandTemplate.trim x)
  /\ (forall x, CommandTemplate.trim x = [] <-> CommandTemplate.endTime x = None).
Proof.
  split; [|split].
  - destruct a; cbn; split; congruence.
  - now intros x ->.
  - intros x. unfold CommandTemplate.trim.
    destruct (CommandTemplate.endTime x); split; congruence.
Qed.

(** C1.  For every [Config] and every output configuration (file sink or
    preview), the command the constructor spawns the encoder with is the
    concatenation, in this order, of the tokens of: the program name and
    global flags; the raw-video input group; the audio groups (the seek
    [-ss begin_time], then [-i] and the audio path, then the trim
    [-to end_time - begin_time]; all present exactly when audio is, the
    trim exactly when [end_time] is too); the video template, the audio
    template (exactly when audio is present) and the caller's extra
    arguments; and last the output target, which ends with the
    destination.  Audio is present when [master_audio] is a non-empty
    path.  The tokens of a list of groups are those [shlex.split] gives on
    each group, in order. *)
Theorem encoder_command_in_group_order
    (cfg : IOutputConfig) (corr_cfg : Config) (os : OS) (st : State)
    (global video audio output : list string) :
  split_all (CommandTemplate.global_flags cfg) = Returns global ->
  split_all (CommandTemplate.video_input corr_cfg) = Returns video ->
  split_all (CommandTemplate.audio_groups (CommandTemplate.audio corr_cfg))
    = Returns audio ->
  split_all (CommandTemplate.output_templates cfg (CommandTemplate.audio corr_cfg))
    = Returns output ->
  let command :=
    global ++ video ++ audio ++ output ++ CommandTemplate.target cfg in
  exists reply later,
    log (snd (construct cfg corr_cfg os st))
    = log st ++ encoder_spawn cfg corr_cfg command reply :: later.
Proof.
  intros Hg Hv Ha Ho command.
  destruct (groups_tokenised cfg corr_cfg _ _ _ _ Hg Hv Ha Ho) as (args & Hargs & Hcmd).
  rewrite (construct_run cfg corr_cfg os st _ Hargs).
  fold command in Hcmd. rewrite Hcmd.
  destruct (spawn_reply os (log st) command "ffmpeg" PIPE
              (CommandTemplate.encoder_stdout cfg)) as [e|p1] eqn:Hreply.
  - exists (inl e), []. reflexivity.
  - destruct cfg as [c|c].
    + exists (inr p1), []. reflexivity.
    + apply spawn_reply_popen in Hreply.
      cbn [CommandTemplate.encoder_stdout] in Hreply.
      rewrite (player_stage_run p1 {| owner := next_pid (log st); stream := Stdout |});
        [|now rewrite Hreply|reflexivity].
      destruct (spawn_reply os _ player_command "ffplay" _ Inherit) as [e|p2].
      * exists (inr p1). eexists. cbn [snd log record]. rewrite <- app_assoc. reflexivity.
      * exists (inr p1). eexists. cbn [snd log record].
        rewrite <- !app_assoc. reflexivity.
Qed.

(** When a template does not tokenise, [shlex.split] raises [ValueError]
    and no process is spawned. *)
Lemma construct_untokenised (cfg : IOutputConfig) (corr_cfg : Config)
    (os : OS) (st : State) (e : exn) :
  split_all (CommandTemplate.groups cfg corr_cfg) = Raises e ->
  isinstance e FileNotFoundError = false ->
  construct cfg corr_cfg os st
  = (Raises e, {| self := initialised corr_cfg cfg (self st); log := log st |}).
Proof.
  intros Hargs He. rewrite construct_unfold. unfold bind at 1.
  rewrite output_init_run. unfold bind at 1. unfold getattr at 1.
  cbn [self bufsize initialised set_bufsize]. unfold bind at 1.
  rewrite (popen_untokenised _ _ _ _ os _ e); [reflexivity| |exact He].
  unfold _FFmpegProcess._generate_args. now rewrite encoder_templates.
Qed.

(** The encoder of either sink: an executable that cannot be located is
    reported as [MissingFFmpegError]. *)
Lemma encoder_missing (cfg : IOutputConfig) (corr_cfg : Config) (os : OS)
    (st : State) (args : list string) :
  split_all (CommandTemplate.groups cfg corr_cfg) = Returns args ->
  locatable os "ffmpeg" = false ->
  fst (construct cfg corr_cfg os st) = Raises missing_ffmpeg_error.
Proof.
  intros Hargs Hloc. rewrite (construct_run cfg corr_cfg os st args Hargs).
  unfold spawn_reply. rewrite Hloc. reflexivity.
Qed.

(** The player of the preview sink: when the encoder was spawned and the
    player's executable cannot be located, the constructor raises the
    [FileNotFoundError] of [subprocess.Popen] as it is. *)
Lemma player_missing (corr_cfg : Config) (c : FFplayOutputConfig.t) (os : OS)
    (st : State) (args : list string) (p1 : Popen) :
  split_all (CommandTemplate.groups (FFplayCfg c) corr_cfg) = Returns args ->
  spawn_reply os (log st) (args ++ ["-"]) "ffmpeg" PIPE PIPE = inr p1 ->
  locatable os "ffplay" = false ->
  fst (FFplayOutput.__init__ corr_cfg c os st) = Raises (os_error ENOENT)
  /\ class_of (os_error ENOENT) = FileNotFoundError
  /\ isinstance (os_error ENOENT) MissingFFmpegError = false.
Proof.
  intros Hargs Hreply Hloc. split; [|split; reflexivity].
  change (FFplayOutput.__init__ corr_cfg c) with (construct (FFplayCfg c) corr_cfg).
  rewrite (construct_run (FFplayCfg c) corr_cfg os st args Hargs).
  cbn [CommandTemplate.destination CommandTemplate.encoder_stdout].
  rewrite Hreply. apply spawn_reply_popen in Hreply.
  rewrite (player_stage_run p1 {| owner := next_pid (log st); stream := Stdout |});
    [|now rewrite Hreply|reflexivity].
  unfold spawn_reply. rewrite Hloc. reflexivity.
Qed.

End ConstructorProperties.

(** *** Partial spawn and pipe ownership in the preview sink *)

Section PreviewProperties.
Context {host : Host}.

(** C7, as the code has it.  When the encoder of the preview sink has been
    spawned and the spawn of the player fails, the constructor raises the
    failure of that spawn; it has made two calls to the OS, the two spawn
    requests, and none that concerns the encoder already running (no
    signal, no wait, no close of its pipes); [open] is not reached, so no
    pipeline and no stream are bound: the sink does not get to run on a
    partially spawned chain. *)
Theorem player_spawn_failure_leaves_encoder_running
    (corr_cfg : Config) (c : FFplayOutputConfig.t) (os : OS) (st : State)
    (args : list string) (p1 : Popen) (e : exn) :
  split_all (CommandTemplate.groups (FFplayCfg c) corr_cfg) = Returns args ->
  let command := args ++ ["-"] in
  let spawn1 := encoder_spawn (FFplayCfg c) corr_cfg command (inr p1) in
  let f := {| owner := pid p1; stream := Stdout |} in
  spawn_reply os (log st) command "ffmpeg" PIPE PIPE = inr p1 ->
  spawn_reply os (log st ++ [spawn1]) player_command "ffplay" (Handle f) Inherit
    = inl e ->
  exists st',
    FFplayOutput.__init__ corr_cfg c os st = (Raises e, st')
    /\ log st' = log st ++ [spawn1; player_spawn os (log st ++ [spawn1]) f]
    /\ existsb (tears_down p1) [spawn1; player_spawn os (log st ++ [spawn1]) f] = false
    /\ _pipeline (self st') = _pipeline (self st)
    /\ _stream (self st') = _stream (self st).
Proof.
  intros Hargs command spawn1 f Hreply1 Hreply2.
  change (FFplayOutput.__init__ corr_cfg c) with (construct (FFplayCfg c) corr_cfg).
  rewrite (construct_run (FFplayCfg c) corr_cfg os st args Hargs).
  cbn [CommandTemplate.destination CommandTemplate.encoder_stdout].
  fold command. rewrite Hreply1. fold spawn1.
  pose proof (spawn_reply_popen _ _ _ _ _ _ _ Hreply1) as Hp1.
  assert (Hout : stdout p1 = Some f) by (unfold f; now rewrite Hp1).
  rewrite (player_stage_run p1 f os _ Hout eq_refl). cbn [log]. rewrite Hreply2.
  eexists. split; [reflexivity|]. cbn [log record self].
  rewrite <- app_assoc. repeat split; reflexivity.
Qed.

Lemma next_pid_spawned (l : list event) (a : list string) (i o : redirect)
    (b : Z) (p : Popen) :
  next_pid (l ++ [EvSpawn a i o b (inr p)]) = S (next_pid l).
Proof.
  unfold next_pid. rewrite filter_app, length_app. cbn. lia.
Qed.

Lemma holders_app (side : pipe_side) (f : File) (l more : list event) :
  holders side f (l ++ more) = fold_left (hold_step side f) more (holders side f l).
Proof. unfold holders. apply fold_left_app. Qed.

(** C9.  In the preview sink's constructor, when both processes are
    spawned, the calls made to the OS are, in order: the spawn of the
    encoder with its stdout on a pipe, the spawn of the player with that
    pipe as its stdin, and immediately after it the close of the parent's
    file object for the encoder's stdout.  After construction the encoder
    is the only holder of the write end of that pipe and the player the
    only holder of its read end; when the close reports no failure the
    constructor returns with the sink opened on encoder and player. *)
Theorem preview_closes_encoder_stdout_after_wiring
    (corr_cfg : Config) (c : FFplayOutputConfig.t) (os : OS) (st : State)
    (args : list string) (p1 p2 : Popen) :
  split_all (CommandTemplate.groups (FFplayCfg c) corr_cfg) = Returns args ->
  let command := args ++ ["-"] in
  let spawn1 := encoder_spawn (FFplayCfg c) corr_cfg command (inr p1) in
  let f := {| owner := pid p1; stream := Stdout |} in
  let spawn2 := player_spawn os (log st ++ [spawn1]) f in
  let failure := close_error os (log st ++ [spawn1; spawn2]) f in
  spawn_reply os (log st) command "ffmpeg" PIPE PIPE = inr p1 ->
  spawn_reply os (log st ++ [spawn1]) player_command "ffplay" (Handle f) Inherit
    = inr p2 ->
  writers f (log st) = [] ->
  readers f (log st) = [] ->
  exists r st',
    FFplayOutput.__init__ corr_cfg c os st = (r, st')
    /\ log st' = log st ++ [spawn1; spawn2; EvClose f failure]
    /\ stdout p1 = Some f
    /\ writers f (log st') = [Child (pid p1)]
    /\ readers f (log st') = [Child (pid p2)]
    /\ (failure = None ->
        r = Returns tt
        /\ _pipeline (self st') = Some [p1; p2]
        /\ _stream (self st') = Some (stdin p1)).
Proof.
  intros Hargs command spawn1 f spawn2 failure Hreply1 Hreply2 Hw Hr.
  change (FFplayOutput.__init__ corr_cfg c) with (construct (FFplayCfg c) corr_cfg).
  rewrite (construct_run (FFplayCfg c) corr_cfg os st args Hargs).
  cbn [CommandTemplate.destination CommandTemplate.encoder_stdout].
  fold command. rewrite Hreply1. fold spawn1.
  pose proof (spawn_reply_popen _ _ _ _ _ _ _ Hreply1) as Hp1.
  pose proof (spawn_reply_popen _ _ _ _ _ _ _ Hreply2) as Hp2.
  assert (Hout : stdout p1 = Some f) by (unfold f; now rewrite Hp1).
  rewrite (player_stage_run p1 f os _ Hout eq_refl). cbn [log]. rewrite Hreply2.
  cbn zeta. cbn [log record self]. fold spawn2.
  assert (Hfail : close_error os ((log st ++ [spawn1]) ++ [spawn2]) f = failure).
  { unfold failure. now rewrite <- app_assoc. }
  rewrite Hfail.
  assert (Hlog : ((log st ++ [spawn1]) ++ [spawn2]) ++ [EvClose f failure]
                 = log st ++ [spawn1; spawn2; EvClose f failure]).
  { now rewrite <- !app_assoc. }
  assert (Hpid2 : pid p2 = S (pid p1)).
  { rewrite Hp2, Hp1. cbn [pid new_popen]. apply next_pid_spawned. }
  assert (Hself : Nat.eqb (pid p1) (pid p1) = true) by apply Nat.eqb_refl.
  assert (Hother : Nat.eqb (pid p1) (pid p2) = false).
  { rewrite Hpid2. apply Nat.eqb_neq. lia. }
  assert (Hff : File_eqb f f = true).
  { unfold File_eqb. now rewrite Nat.eqb_refl. }
  do 2 eexists. split; [reflexivity|]. cbn [log]. rewrite Hlog.
  split; [reflexivity|]. split; [exact Hout|].
  unfold writers, readers in *. rewrite !holders_app, Hw, Hr.
  unfold spawn1, spawn2, encoder_spawn, player_spawn. rewrite Hreply2.
  cbn [fold_left hold_step CommandTemplate.encoder_stdout owner stream f
       is_pipe passes side_of pipe_side_eqb stream_name_eqb].
  fold f. rewrite Hself, Hother, Hff. cbn.
  split; [reflexivity|]. split; [reflexivity|].
  intros ->. cbn. auto.
Qed.

End PreviewProperties.

(* ===================================================================== *)
(** ** The properties on concrete runs *)
(* ===================================================================== *)

(** The file sink for a trimmed audio track: the command, token by token. *)
Lemma encoder_command_in_group_order_witness :
  split_all (CommandTemplate.global_flags file_sink) = Returns ["ffmpeg"; "-y"]
  /\ split_all (CommandTemplate.video_input Demo.with_audio)
     = Returns ["-f"; "rawvideo"; "-pixel_format"; "rgb24"; "-video_size";
                "640x480"; "-framerate"; "60"; "-i"; "-"]
  /\ split_all (CommandTemplate.audio_groups (CommandTemplate.audio Demo.with_audio))
     = Returns ["-ss"; "2.0"; "-i"; "/work/my song.wav"; "-to"; "8.0"]
  /\ split_all (CommandTemplate.output_templates file_sink
                  (CommandTemplate.audio Demo.with_audio))
     = Returns ["-c:v"; "libx264"; "-crf"; "18"; "-preset"; "superfast";
                "-movflags"; "faststart"; "-c:a"; "aac"; "-b:a"; "384k"]
  /\ exists reply later,
       log (snd (construct file_sink Demo.with_audio (Demo.exiting 0) Demo.initial))
       = log Demo.initial
         ++ encoder_spawn file_sink Demo.with_audio file_sink_command reply :: later.
Proof.
  assert (Hg : split_all (CommandTemplate.global_flags file_sink)
               = Returns ["ffmpeg"; "-y"]) by reflexivity.
  assert (Hv : split_all (CommandTemplate.video_input Demo.with_audio)
               = Returns ["-f"; "rawvideo"; "-pixel_format"; "rgb24"; "-video_size";
                          "640x480"; "-framerate"; "60"; "-i"; "-"])
    by reflexivity.
  assert (Ha : split_all (CommandTemplate.audio_groups
                            (CommandTemplate.audio Demo.with_audio))
               = Returns ["-ss"; "2.0"; "-i"; "/work/my song.wav"; "-to"; "8.0"])
    by reflexivity.
  assert (Ho : split_all (CommandTemplate.output_templates file_sink
                            (CommandTemplate.audio Demo.with_audio))
               = Returns ["-c:v"; "libx264"; "-crf"; "18"; "-preset"; "superfast";
                          "-movflags"; "faststart"; "-c:a"; "aac"; "-b:a"; "384k"])
    by reflexivity.
  repeat split; try assumption.
  exact (encoder_command_in_group_order file_sink Demo.with_audio
           (Demo.exiting 0) Demo.initial _ _ _ _ Hg Hv Ha Ho).
Defined.

(** A write into a broken pipe. *)
Lemma write_frame_stops_on_broken_pipe_witness :
  _stream (self Demo.running) = Some (Some encoder_input)
  /\ write_error Demo.broken_pipe (log Demo.running) encoder_input Demo.frame
     = Some (os_error EPIPE)
  /\ PipeOutput.write_frame Demo.frame Demo.broken_pipe Demo.running
     = (Returns (Some Stop),
        record Demo.running (EvWrite encoder_input Demo.frame (Some (os_error EPIPE)))).
Proof.
  split; [reflexivity|]. split; [reflexivity|].
  apply (write_frame_stops_on_broken_pipe Demo.broken_pipe Demo.running
           encoder_input Demo.frame (os_error EPIPE) eq_refl eq_refl).
  now left.
Defined.



(** The same run, spelt out. *)
Example terminate_with_hung_encoder :
  PipeOutput.terminate Demo.first_hangs Demo.running
  = (Raises (timeout_expired (args Demo.encoder) 1),
     {| self := self Demo.running;
        log := [EvClose encoder_input None;
                EvTerminate Demo.encoder;
                EvWait Demo.encoder (Some 1) None;
                EvKill Demo.encoder;
                EvTerminate Demo.player;
                EvWait Demo.player (Some 1) (Some 0)] |}).
Proof. reflexivity. Qed.

(** Encoder and player both exit with status 3. *)
Lemma close_returns_or_of_exit_codes_witness :
  _stream (self Demo.running) = Some (Some encoder_input)
  /\ _pipeline (self Demo.running) = Some [Demo.encoder; Demo.player]
  /\ absorbed (close_error (Demo.exiting 3) (log Demo.running) encoder_input)
  /\ close_blocks (Demo.exiting 3) (log Demo.running) encoder_input = false
  /\ (forall l p, In p [Demo.encoder; Demo.player] ->
        wait_reply (Demo.exiting 3) l p None <> None)
  /\ exists codes,
       List.length codes = List.length [Demo.encoder; Demo.player]
       /\ PipeOutput.close true (Demo.exiting 3) Demo.running
          = (Returns (or_all codes),
             {| self := self Demo.running;
                log := log Demo.running
                       ++ EvClose encoder_input
                            (close_error (Demo.exiting 3) (log Demo.running) encoder_input)
                          :: waits [Demo.encoder; Demo.player] codes |})
       /\ (or_all codes = 0 <-> Forall (fun c => c = 0) codes)
       /\ (forall c, In c codes -> c <> 0 -> or_all codes <> 0).
Proof.
  assert (Ha : absorbed (close_error (Demo.exiting 3) (log Demo.running) encoder_input))
    by (intros e He; discriminate He).
  assert (Hx : forall l p, In p [Demo.encoder; Demo.player] ->
                 wait_reply (Demo.exiting 3) l p None <> None)
    by (intros l p _; discriminate).
  split; [reflexivity|]. split; [reflexivity|]. split; [exact Ha|]. split; [reflexivity|]. split; [exact Hx|].
  exact (close_returns_or_of_exit_codes (Demo.exiting 3) Demo.running
           encoder_input [Demo.encoder; Demo.player] eq_refl eq_refl Ha eq_refl Hx).
Defined.

Example close_collects_both_codes :
  PipeOutput.close true Demo.first_hangs Demo.running
  = (Hangs,
     {| self := self Demo.running;
        log := [EvClose encoder_input None; EvWait Demo.encoder None None] |})
  /\ PipeOutput.close true (Demo.exiting 3) Demo.running
     = (Returns 3,
        {| self := self Demo.running;
           log := [EvClose encoder_input None;
                   EvWait Demo.encoder None (Some 3);
                   EvWait Demo.player None (Some 3)] |}).
Proof. split; reflexivity. Qed.



(** The encoder never exits, nothing is buffered: no wait is made. *)
Example close_without_wait_makes_no_wait :
  PipeOutput.close false Demo.first_hangs Demo.running
  = (Returns 0,
     {| self := self Demo.running; log := [EvClose encoder_input None] |}).
Proof. reflexivity. Qed.

(** C6 fails on the code for the player.  With the encoder installed and
    the player not, the preview constructor spawns the encoder and then
    raises the [FileNotFoundError] of the player's spawn, which is not a
    [MissingFFmpegError]; with neither installed, both constructors raise
    [MissingFFmpegError]. *)
Theorem missing_player_is_not_reported_as_missing_ffmpeg :
  construct (FFplayCfg FFplayOutputConfig.default) Demo.silent
    Demo.without_ffplay Demo.initial
  = (Raises (os_error ENOENT),
     {| self := initialised Demo.silent (FFplayCfg FFplayOutputConfig.default) blank;
        log := [EvSpawn preview_command PIPE PIPE 1843200 (inr preview_encoder);
                EvSpawn player_command (Handle encoder_output) Inherit (-1)
                  (inl (os_error ENOENT))] |})
  /\ class_of (os_error ENOENT) = FileNotFoundError
  /\ isinstance (os_error ENOENT) MissingFFmpegError = false
  /\ fst (construct (FFplayCfg FFplayOutputConfig.default) Demo.silent
            Demo.nothing_installed Demo.initial)
     = Raises missing_ffmpeg_error
  /\ fst (construct file_sink Demo.silent Demo.nothing_installed Demo.initial)
     = Raises missing_ffmpeg_error.
Proof. repeat split; reflexivity. Qed.

(** C7 as stated fails on the code.  With the encoder installed and the
    player not, the preview constructor raises after two calls to the OS:
    the spawn of the encoder, which succeeded, and the spawn of the
    player, which failed.  No call tears the encoder down. *)
Lemma spawned_encoder_is_not_torn_down :
  FFplayOutput.__init__ Demo.silent FFplayOutputConfig.default
    Demo.without_ffplay Demo.initial
  = (Raises (os_error ENOENT),
     {| self := initialised Demo.silent (FFplayCfg FFplayOutputConfig.default) blank;
        log := [EvSpawn preview_command PIPE PIPE 1843200 (inr preview_encoder);
                EvSpawn player_command (Handle encoder_output) Inherit (-1)
                  (inl (os_error ENOENT))] |})
  /\ existsb (tears_down preview_encoder)
       (log (snd (FFplayOutput.__init__ Demo.silent FFplayOutputConfig.default
                    Demo.without_ffplay Demo.initial)))
     = false.
Proof. split; reflexivity. Qed.

Lemma player_spawn_failure_leaves_encoder_running_witness :
  let cfg := FFplayCfg FFplayOutputConfig.default in
  let spawn1 := encoder_spawn cfg Demo.silent preview_command (inr preview_encoder) in
  split_all (CommandTemplate.groups cfg Demo.silent)
  = Returns ["ffmpeg"; "-nostats"; "-f"; "rawvideo"; "-pixel_format"; "rgb24";
             "-video_size"; "640x480"; "-framerate"; "60"; "-i"; "-";
             "-c:v"; "copy"; "-f"; "nut"]
  /\ spawn_reply Demo.without_ffplay (log Demo.initial) preview_command
       "ffmpeg" PIPE PIPE = inr preview_encoder
  /\ spawn_reply Demo.without_ffplay (log Demo.initial ++ [spawn1])
       player_command "ffplay" (Handle encoder_output) Inherit
     = inl (os_error ENOENT)
  /\ exists st',
       FFplayOutput.__init__ Demo.silent FFplayOutputConfig.default
         Demo.without_ffplay Demo.initial = (Raises (os_error ENOENT), st')
       /\ log st'
          = log Demo.initial
            ++ [spawn1;
                player_spawn Demo.without_ffplay (log Demo.initial ++ [spawn1])
                  encoder_output]
       /\ existsb (tears_down preview_encoder)
            [spawn1;
             player_spawn Demo.without_ffplay (log Demo.initial ++ [spawn1])
               encoder_output] = false
       /\ _pipeline (self st') = _pipeline (self Demo.initial)
       /\ _stream (self st') = _stream (self Demo.initial).
Proof.
  intros cfg spawn1.
  split; [reflexivity|]. split; [reflexivity|]. split; [reflexivity|].
  exact (player_spawn_failure_leaves_encoder_running Demo.silent
           FFplayOutputConfig.default Demo.without_ffplay Demo.initial
           _ preview_encoder (os_error ENOENT) eq_refl eq_refl eq_refl).
Defined.

(** A block that writes one frame and returns: [close(wait=True)] runs. *)
Lemma with_block_runs_exactly_one_shutdown_path_witness :
  let body := PipeOutput.write_frame Demo.frame in
  let st1 := record Demo.running (EvWrite encoder_input Demo.frame None) in
  body (Demo.exiting 0) Demo.running = (Returns None, st1)
  /\ Returns None <> @Hangs (option _Stop)
  /\ _stream (self st1) = Some (Some encoder_input)
  /\ _pipeline (self st1) = Some [Demo.encoder; Demo.player]
  /\ [Demo.encoder; Demo.player] <> []
  /\ absorbed (close_error (Demo.exiting 0) (log st1) encoder_input)
  /\ close_blocks (Demo.exiting 0) (log st1) encoder_input = false
  /\ exists r evs,
       PipeOutput.with_ body (Demo.exiting 0) Demo.running
       = (r, {| self := self st1; log := log st1 ++ evs |})
       /\ PipeOutput.with_ body (Demo.exiting 0) Demo.running
          = (PipeOutput.close true ;; ret None) (Demo.exiting 0) st1
       /\ existsb is_untimed_wait evs = true
       /\ existsb is_signal evs = false.
Proof.
  intros body st1.
  assert (Hfin : Returns None <> @Hangs (option _Stop)) by discriminate.
  assert (Hne : [Demo.encoder; Demo.player] <> []) by discriminate.
  assert (Ha : absorbed (close_error (Demo.exiting 0) (log st1) encoder_input))
    by (intros e He; discriminate He).
  split; [reflexivity|]. split; [exact Hfin|]. split; [reflexivity|].
  split; [reflexivity|]. split; [exact Hne|]. split; [exact Ha|]. split; [reflexivity|].
  exact (with_block_runs_exactly_one_shutdown_path (option _Stop) body
           (Demo.exiting 0) Demo.running st1 (Returns None) encoder_input
           [Demo.encoder; Demo.player] eq_refl Hfin eq_refl eq_refl Hne Ha eq_refl).
Defined.

(** A block whose body raises: [terminate()] runs, and the exception of
    the body goes on. *)
Example with_block_on_exception :
  PipeOutput.with_
    (PipeOutput.write_frame Demo.frame ;; (raise (value_error "render") : M unit))
    (Demo.exiting 0) Demo.running
  = (Raises (value_error "render"),
     {| self := self Demo.running;
        log := [EvWrite encoder_input Demo.frame None;
                EvClose encoder_input None;
                EvTerminate Demo.encoder;
                EvWait Demo.encoder (Some 1) (Some 0);
                EvTerminate Demo.player;
                EvWait Demo.player (Some 1) (Some 0)] |}).
Proof. reflexivity. Qed.

(** The preview sink, both executables installed. *)
Lemma preview_closes_encoder_stdout_after_wiring_witness :
  let cfg := FFplayCfg FFplayOutputConfig.default in
  let os := Demo.exiting 0 in
  let spawn1 := encoder_spawn cfg Demo.silent preview_command (inr preview_encoder) in
  let spawn2 := player_spawn os (log Demo.initial ++ [spawn1]) encoder_output in
  let failure := close_error os (log Demo.initial ++ [spawn1; spawn2]) encoder_output in
  split_all (CommandTemplate.groups cfg Demo.silent)
  = Returns ["ffmpeg"; "-nostats"; "-f"; "rawvideo"; "-pixel_format"; "rgb24";
             "-video_size"; "640x480"; "-framerate"; "60"; "-i"; "-";
             "-c:v"; "copy"; "-f"; "nut"]
  /\ spawn_reply os (log Demo.initial) preview_command "ffmpeg" PIPE PIPE
     = inr preview_encoder
  /\ spawn_reply os (log Demo.initial ++ [spawn1]) player_command "ffplay"
       (Handle encoder_output) Inherit = inr preview_player
  /\ writers encoder_output (log Demo.initial) = []
  /\ readers encoder_output (log Demo.initial) = []
  /\ exists r st',
       FFplayOutput.__init__ Demo.silent FFplayOutputConfig.default os Demo.initial
       = (r, st')
       /\ log st' = log Demo.initial ++ [spawn1; spawn2; EvClose encoder_output failure]
       /\ stdout preview_encoder = Some encoder_output
       /\ writers encoder_output (log st') = [Child (pid preview_encoder)]
       /\ readers encoder_output (log st') = [Child (pid preview_player)]
       /\ (failure = None ->
           r = Returns tt
           /\ _pipeline (self st') = Some [preview_encoder; preview_player]
           /\ _stream (self st') = Some (stdin preview_encoder)).
Proof.
  intros cfg os spawn1 spawn2 failure.
  split; [reflexivity|]. split; [reflexivity|]. split; [reflexivity|].
  split; [reflexivity|]. split; [reflexivity|].
  exact (preview_closes_encoder_stdout_after_wiring Demo.silent
           FFplayOutputConfig.default os Demo.initial _ preview_encoder
           preview_player eq_refl eq_refl eq_refl eq_refl eq_refl).
Defined.

Example preview_construction :
  FFplayOutput.__init__ Demo.silent FFplayOutputConfig.default (Demo.exiting 0)
    Demo.initial
  = (Returns tt,
     {| self := set__stream (Some encoder_input)
                  (set__pipeline [preview_encoder; preview_player]
                     (initialised Demo.silent (FFplayCfg FFplayOutputConfig.default) blank));
        log := [EvSpawn preview_command PIPE PIPE 1843200 (inr preview_encoder);
                EvSpawn player_command (Handle encoder_output) Inherit (-1)
                  (inr preview_player);
                EvClose encoder_output None] |}).
Proof. reflexivity. Qed.

(** Opening the preview sink on its two processes. *)
Lemma open_binds_nonempty_chain_witness :
  PipeOutput.open [Demo.encoder; Demo.player] (Demo.exiting 0) Demo.initial
  = (Returns tt, Demo.running)
  /\ exists first rest,
       [Demo.encoder; Demo.player] = first :: rest
       /\ _pipeline (self Demo.running) = Some (first :: rest)
       /\ _stream (self Demo.running) = Some (stdin first).
Proof.
  assert (H : PipeOutput.open [Demo.encoder; Demo.player] (Demo.exiting 0) Demo.initial
              = (Returns tt, Demo.running)) by reflexivity.
  split; [exact H|].
  exact (proj2 (proj2 (open_binds_nonempty_chain (Demo.exiting 0) Demo.initial))
           [Demo.encoder; Demo.player] Demo.running H).
Defined.

Example split_video_input :
  shlex.split "-f rawvideo -pixel_format rgb24 -video_size 640x480"
  = Returns ["-f"; "rawvideo"; "-pixel_format"; "rgb24"; "-video_size"; "640x480"].
Proof. reflexivity. Qed.

Example split_quoted_path :
  shlex.split (shlex.quote "/tmp/my song's.wav") = Returns ["/tmp/my song's.wav"].
Proof. reflexivity. Qed.

Example split_unclosed_quote :
  shlex.split "-c:v 'libx264" = Raises (value_error "No closing quotation").
Proof. reflexivity. Qed.

(* ===================================================================== *)
(** ** Further properties of the code *)
(* ===================================================================== *)

(** *** Tokens of the input groups *)

Section TokenProperties.
Context {host : Host}.

Lemma all_safe_app (a b : string) :
  shlex.all_safe (a ++ b) = shlex.all_safe a && shlex.all_safe b.
Proof.
  induction a as [|c a IH]; cbn; [reflexivity|].
  now rewrite IH, andb_assoc.
Qed.

Lemma digits_safe (d : Decimal.uint) :
  shlex.all_safe (NilEmpty.string_of_uint d) = true.
Proof. induction d; cbn; auto. Qed.

(** The decimal writing of an integer holds digits and at most a sign. *)
Lemma str_int_safe (n : Z) : shlex.all_safe (str_int n) = true.
Proof.
  unfold str_int, NilZero.string_of_int.
  destruct (Z.to_int n) as [d|d]; unfold NilZero.string_of_uint;
    destruct d; cbn [shlex.all_safe NilEmpty.string_of_uint];
    rewrite ?digits_safe; reflexivity.
Qed.

(** A non-empty run of safe characters, read from the start state, is one
    token. *)
Lemma read_safe_token (s : string) (c : ascii) :
  shlex.all_safe (String c s) = true ->
  forall escapedstate,
    shlex.read (String c s) shlex.in_space escapedstate false EmptyString
    = Returns [String c s].
Proof.
  intros Hs escapedstate. cbn in Hs. apply andb_prop in Hs. destruct Hs as [Hc Hs].
  destruct (safe_is_plain c Hc) as (Hw & Hq & Hx).
  cbn [shlex.read]. rewrite Hw, Hq, Hx.
  now rewrite (read_safe_word s Hs).
Qed.

(** X1.  The audio path reaches the encoder as exactly one argument, equal
    to the path, whatever characters it holds (spaces, quotes,
    backslashes): the two templates [ffmpeg_input_audio] returns for a
    quoted path tokenise to [-i] and the path itself. *)
Theorem audio_path_is_one_argument (path : string) :
  split_all (ffmpeg_input_audio (shlex.quote path)) = Returns ["-i"; path].
Proof.
  unfold ffmpeg_input_audio. cbn [split_all].
  change (shlex.split "-i") with (@Returns (list string) ["-i"]).
  now rewrite split_quote.
Qed.

(** X2.  Whatever the integers [width] and [height] are, the first
    template of [ffmpeg_input_video] tokenises to six arguments, the last
    of which is the single token [width x height] in decimal; the second
    template is [-framerate] followed by the formatted frame rate, and the
    third tokenises to [-i] and [-]. *)
Theorem video_size_is_one_argument (cfg : Config) :
  exists size_template,
    ffmpeg_input_video cfg
    = [size_template; ("-framerate " ++ fps_str (render_fps cfg))%string; "-i -"]
    /\ shlex.split size_template
       = Returns ["-f"; "rawvideo"; "-pixel_format"; "rgb24"; "-video_size";
                  (str_int (width (render cfg)) ++ "x"
                   ++ str_int (height (render cfg)))%string]
    /\ shlex.split "-i -" = Returns ["-i"; "-"].
Proof.
  eexists. split; [reflexivity|]. split; [|reflexivity].
  set (size := (str_int (width (render cfg)) ++ "x"
                ++ str_int (height (render cfg)))%string).
  assert (Hsafe : shlex.all_safe size = true).
  { unfold size. now rewrite !all_safe_app, !str_int_safe. }
  assert (Hne : exists c s, size = String c s).
  { unfold size. destruct (str_int (width (render cfg))) as [|c s]; cbn; eauto. }
  destruct Hne as (c & s & Hsize).
  assert (Htail : forall e,
             shlex.read size shlex.in_space e false EmptyString = Returns [size]).
  { intros e. rewrite Hsize in *. now apply read_safe_token. }
  unfold shlex.split, PIXEL_FORMAT. cbn [append]. fold size.
  clearbody size. cbn. now rewrite Htail.
Qed.

End TokenProperties.

(** *** Templates that do not tokenise *)

Section UntokenisedProperties.
Context {host : Host}.

Lemma cons_token_outcome (token : string) (r : result (list string)) :
  tokens_or_value_error r -> tokens_or_value_error (shlex.cons_token token r).
Proof. destruct r; cbn; auto. Qed.

Lemma read_outcome (input : string) :
  forall state escapedstate quoted token,
    tokens_or_value_error (shlex.read input state escapedstate quoted token).
Proof.
  induction input as [|c input IH]; intros state escapedstate quoted token.
  - destruct state; cbn; eauto.
  - destruct state; cbn [shlex.read];
      repeat match goal with
             | |- context [if ?b then _ else _] => destruct b
             | |- context [match ?x with shlex.in_space => _ | _ => _ end] =>
                 destruct x
             end;
      auto using cons_token_outcome.
Qed.

Lemma split_all_outcome (templates : list string) :
  tokens_or_value_error (split_all templates).
Proof.
  induction templates as [|t templates IH]; cbn; [exact I|].
  pose proof (read_outcome t shlex.in_space shlex.in_space false EmptyString) as Ht.
  unfold shlex.split. destruct (shlex.read t _ _ _ _); cbn in *; auto.
  destruct (split_all templates); cbn in *; auto.
Qed.

(** X11.  When a template does not tokenise (a quotation left open, a
    backslash at the end), either constructor raises the lexer's
    [ValueError] as it is, after [Output.__init__] has bound [bufsize] and
    before any call to the operating system: no process is spawned and the
    sink is not opened. *)
Theorem untokenised_template_raises_before_spawn
    (cfg : IOutputConfig) (corr_cfg : Config) (os : OS) (st : State) (e : exn) :
  split_all (CommandTemplate.groups cfg corr_cfg) = Raises e ->
  exists msg,
    e = value_error msg
    /\ construct cfg corr_cfg os st
       = (Raises (value_error msg),
          {| self := initialised corr_cfg cfg (self st); log := log st |})
    /\ _pipeline (initialised corr_cfg cfg (self st)) = _pipeline (self st)
    /\ _stream (initialised corr_cfg cfg (self st)) = _stream (self st).
Proof.
  intros Hargs.
  pose proof (split_all_outcome (CommandTemplate.groups cfg corr_cfg)) as Hout.
  rewrite Hargs in Hout. destruct Hout as (msg & ->).
  exists msg. split; [reflexivity|]. split; [|split; reflexivity].
  rewrite construct_unfold. unfold bind at 1.
  rewrite output_init_run. unfold bind at 1. unfold getattr at 1.
  cbn [self bufsize initialised set_bufsize]. unfold bind at 1.
  rewrite (popen_untokenised _ _ _ _ os _ (value_error msg)); [reflexivity| |reflexivity].
  unfold _FFmpegProcess._generate_args. now rewrite encoder_templates.
Qed.

End UntokenisedProperties.

(** *** More on [close] and [terminate] *)

Section ShutdownProperties.
Context {host : Host}.

(** A loop over a concatenation is the loop over the first part followed
    by the loop over the second. *)
Lemma for_app (A B : Type) (xs ys : list A) (body : B -> A -> M B) :
  forall (acc : B) (os : OS) (st : State),
    for_ (xs ++ ys) acc body os st
    = match for_ xs acc body os st with
      | (Returns acc', st') => for_ ys acc' body os st'
      | (Raises e, st') => (Raises e, st')
      | (Hangs, st') => (Hangs, st')
      end.
Proof.
  induction xs as [|x xs IH]; intros acc os st; [reflexivity|].
  cbn [app for_]. unfold bind.
  destruct (body acc x os st) as [[acc'|e|] st']; auto.
Qed.

(** The exit codes [close] collects, each tied to the process it came
    from. *)
Lemma wait_all_codes (os : OS) (ps : list Popen) :
  (forall l p, In p ps -> wait_reply os l p None <> None) ->
  forall (st : State) (acc : Z),
  exists codes,
    wait_all ps acc os st
    = (Returns (fold_left Z.lor codes acc),
       {| self := self st; log := log st ++ waits ps codes |})
    /\ Forall2 (fun p c => exists l, wait_reply os l p None = Some c) ps codes.
Proof.
  induction ps as [|p ps IH]; intros Hexit st acc.
  - exists []. split; [|constructor]. cbn. rewrite app_nil_r. now destruct st.
  - assert (Hp : wait_reply os (log st) p None <> None) by (apply Hexit; now left).
    destruct (wait_reply os (log st) p None) as [c|] eqn:Hc; [|contradiction].
    destruct (IH (fun l q Hq => Hexit l q (or_intror Hq))
                 (record st (EvWait p None (Some c))) (Z.lor acc c))
      as (codes & Hrun & Hcodes).
    exists (c :: codes). split; [|constructor; eauto].
    unfold wait_all in *. cbn [for_]. unfold bind at 1. unfold bind at 1.
    unfold Popen_wait at 1. rewrite Hc. cbn [ret].
    rewrite Hrun. cbn. now rewrite <- app_assoc.
Qed.

Lemma or_in_byte (a b : Z) :
  0 <= a < 256 -> 0 <= b < 256 -> 0 <= Z.lor a b < 256.
Proof.
  intros [Ha0 Ha] [Hb0 Hb]. split; [now apply Z.lor_nonneg|].
  destruct (Z.eq_dec a 0) as [->|Hna]; [now rewrite Z.lor_0_l|].
  destruct (Z.eq_dec b 0) as [->|Hnb]; [now rewrite Z.lor_0_r|].
  change 256 with (2 ^ 8) in *.
  apply Z.log2_lt_pow2; [|].
  - assert (0 <= Z.lor a b) by now apply Z.lor_nonneg.
    assert (Z.lor a b <> 0) by (rewrite Z.lor_eq_0_iff; tauto). lia.
  - rewrite Z.log2_lor by assumption.
    apply Z.max_lub_lt; apply Z.log2_lt_pow2; lia.
Qed.

Lemma or_from_byte (codes : list Z) (acc : Z) :
  0 <= acc < 256 ->
  Forall (fun c => 0 <= c < 256) codes ->
  0 <= fold_left Z.lor codes acc < 256.
Proof.
  revert acc. induction codes as [|c codes IH]; intros acc Hacc Hall; [exact Hacc|].
  inversion Hall; subst. cbn. apply IH; [now apply or_in_byte | assumption].
Qed.

Lemma or_from_negative (codes : list Z) (acc : Z) :
  acc < 0 \/ Exists (fun c => c < 0) codes ->
  fold_left Z.lor codes acc < 0.
Proof.
  revert acc. induction codes as [|c codes IH]; intros acc H; cbn.
  - destruct H as [H|H]; [exact H | inversion H].
  - apply IH. destruct H as [H|H].
    + left. apply Z.lor_neg. now left.
    + inversion H; subst; [left; apply Z.lor_neg; now right | now right].
Qed.

Lemma collected_codes_all (os : OS) (P : Z -> Prop) (ps : list Popen)
    (codes : list Z) :
  Forall2 (fun p c => exists l, wait_reply os l p None = Some c) ps codes ->
  (forall l p c, In p ps -> wait_reply os l p None = Some c -> P c) ->
  Forall P codes.
Proof.
  induction 1 as [|p c ps codes (l & Hc) _ IH]; intros HP; constructor.
  - apply (HP l p c); [now left | exact Hc].
  - apply IH. intros l' q c' Hq. apply HP. now right.
Qed.

Lemma collected_codes_some (os : OS) (P : Z -> Prop) (ps : list Popen)
    (codes : list Z) (p : Popen) :
  Forall2 (fun p c => exists l, wait_reply os l p None = Some c) ps codes ->
  In p ps ->
  (forall l c, wait_reply os l p None = Some c -> P c) ->
  Exists P codes.
Proof.
  induction 1 as [|q c ps codes (l & Hc) _ IH]; intros Hin HP; [contradiction|].
  destruct Hin as [-> | Hin].
  - left. now apply (HP l).
  - right. now apply IH.
Qed.

(** X7.  The status [close(wait=True)] returns stays within what the
    processes return.  On an opened sink whose stream's close completes
    and whose processes all exit: when every process exits with a code in
    0..255 the status is in 0..255, and when some process returns a
    negative code (it was killed by a signal) the status is negative. *)
Theorem close_status_range
    (os : OS) (st : State) (f : File) (ps : list Popen) :
  _stream (self st) = Some (Some f) ->
  _pipeline (self st) = Some ps ->
  absorbed (close_error os (log st) f) ->
  close_blocks os (log st) f = false ->
  (forall l p, In p ps -> wait_reply os l p None <> None) ->
  exists status,
    fst (PipeOutput.close true os st) = Returns status
    /\ ((forall l p c, In p ps -> wait_reply os l p None = Some c -> 0 <= c < 256) ->
        0 <= status < 256)
    /\ ((exists p, In p ps /\ forall l c, wait_reply os l p None = Some c -> c < 0) ->
        status < 0).
Proof.
  intros Hs Hp Ha Hb Hexit.
  destruct (wait_all_codes os ps Hexit
              (record st (EvClose f (close_error os (log st) f))) 0)
    as (codes & Hrun & Hcodes).
  exists (fold_left Z.lor codes 0). split; [|split].
  - rewrite close_unfold. unfold bind at 1.
    rewrite (close_stream_run os st f Hs Ha Hb). cbn [negb].
    unfold bind, getattr. rewrite record_self, Hp, Hrun. reflexivity.
  - intros Hbyte. apply or_from_byte; [lia|].
    exact (collected_codes_all os _ ps codes Hcodes Hbyte).
  - intros (p & Hin & Hneg). apply or_from_negative. right.
    exact (collected_codes_some os _ ps codes p Hcodes Hin Hneg).
Qed.

(** X6.  [close(wait=True)] has no timeout: when the close of the stream
    has completed and a process of the chain never exits, the call waits
    for the processes before it, then blocks in the wait for that process
    for ever; the processes after it are never waited for. *)
Theorem close_blocks_on_process_that_never_exits
    (os : OS) (st : State) (f : File) (before after : list Popen) (p : Popen) :
  _stream (self st) = Some (Some f) ->
  _pipeline (self st) = Some (before ++ p :: after) ->
  absorbed (close_error os (log st) f) ->
  close_blocks os (log st) f = false ->
  (forall l q, In q before -> wait_reply os l q None <> None) ->
  (forall l, wait_reply os l p None = None) ->
  exists codes,
    List.length codes = List.length before
    /\ PipeOutput.close true os st
       = (Hangs,
          {| self := self st;
             log := log st ++ EvClose f (close_error os (log st) f)
                    :: waits before codes ++ [EvWait p None None] |}).
Proof.
  intros Hs Hp Ha Hb Hexit Hnever.
  destruct (wait_all_exits os before Hexit
              (record st (EvClose f (close_error os (log st) f))) 0)
    as (codes & Hlen & Hrun).
  exists codes. split; [exact Hlen|].
  rewrite close_unfold. unfold bind at 1.
  rewrite (close_stream_run os st f Hs Ha Hb). cbn [negb].
  unfold bind at 1. unfold getattr at 1. rewrite record_self, Hp.
  unfold wait_all in *. rewrite for_app, Hrun.
  cbn [for_]. unfold bind at 1. unfold bind at 1. unfold Popen_wait at 1.
  rewrite Hnever. unfold record. cbn [self log].
  rewrite <- !app_assoc. reflexivity.
Qed.

(** When every process obeys the terminate signal within the timeout,
    the loop of [terminate] leaves [exc] as it was. *)
Lemma terminate_all_obeyed (os : OS) (ps : list Popen) :
  (forall l p, In p ps -> wait_reply os l p (Some 1) <> None) ->
  forall (st : State) (exc : option exn),
  exists segs,
    terminate_all ps exc os st
    = (Returns exc, {| self := self st; log := log st ++ List.concat segs |})
    /\ Forall2 exited_on_request ps segs.
Proof.
  induction ps as [|p ps IH]; intros Hobey st exc.
  - exists []. cbn. rewrite app_nil_r. destruct st. auto.
  - unfold terminate_all in *. cbn [for_]. unfold bind at 1.
    rewrite terminate_one.
    assert (Hp : wait_reply os (log st ++ [EvTerminate p]) p (Some 1) <> None)
      by (apply Hobey; now left).
    destruct (wait_reply os (log st ++ [EvTerminate p]) p (Some 1)) as [code|];
      [|contradiction].
    match goal with |- context [for_ ps exc ?body os ?st1] =>
      destruct (IH (fun l q Hq => Hobey l q (or_intror Hq)) st1 exc)
        as (segs & Hrun & Hshape)
    end.
    exists ([EvTerminate p; EvWait p (Some 1) (Some code)] :: segs).
    rewrite Hrun. cbn [self log List.concat]. rewrite <- app_assoc.
    split; [reflexivity|]. constructor; [now exists code | exact Hshape].
Qed.

(** X4.  When several processes ignore the terminate signal, the
    [TimeoutExpired] that [terminate] raises is the one of the last such
    process in the chain: it carries that process's command.  Here the
    close of the stream completes, [p] does not exit within the timeout
    and every process after it does. *)
Theorem terminate_raises_the_last_timeout
    (os : OS) (st : State) (f : File) (before after : list Popen) (p : Popen) :
  _stream (self st) = Some (Some f) ->
  _pipeline (self st) = Some (before ++ p :: after) ->
  absorbed (close_error os (log st) f) ->
  close_blocks os (log st) f = false ->
  (forall l, wait_reply os l p (Some 1) = None) ->
  (forall l q, In q after -> wait_reply os l q (Some 1) <> None) ->
  fst (PipeOutput.terminate os st) = Raises (timeout_expired (args p) 1)
  /\ terminated (skipn (List.length (log st)) (log (snd (PipeOutput.terminate os st))))
     = before ++ p :: after.
Proof.
  intros Hs Hp Ha Hb Hnever Hobey.
  assert (Hrun : exists segs1 segs2,
             PipeOutput.terminate os st
             = (Raises (timeout_expired (args p) 1),
                {| self := self st;
                   log := log st
                          ++ (EvClose f (close_error os (log st) f) :: List.concat segs1)
                          ++ [EvTerminate p; EvWait p (Some 1) None; EvKill p]
                          ++ List.concat segs2 |})
             /\ Forall2 shut_down before segs1
             /\ Forall2 exited_on_request after segs2).
  { rewrite terminate_unfold. unfold bind at 1.
    rewrite (close_nowait_run os st f Hs Ha Hb).
    unfold bind at 1. unfold getattr at 1. rewrite record_self, Hp.
    unfold bind at 1. unfold terminate_all. rewrite for_app.
    fold (terminate_all before None).
    destruct (terminate_all_run os before
                (record st (EvClose f (close_error os (log st) f))) None)
      as (segs1 & exc1 & Hrun1 & Hshape1 & _).
    rewrite Hrun1. cbn [for_]. unfold bind at 1. rewrite terminate_one.
    cbn [log]. rewrite Hnever.
    match goal with |- context [for_ after ?exc ?body os ?st1] =>
      fold (terminate_all after exc);
      destruct (terminate_all_obeyed os after Hobey st1 exc) as (segs2 & Hrun2 & Hshape2)
    end.
    rewrite Hrun2. exists segs1, segs2. split; [|auto].
    unfold record. cbn [self log]. rewrite <- !app_assoc. reflexivity. }
  destruct Hrun as (segs1 & segs2 & -> & Hshape1 & Hshape2).
  cbn [fst snd log]. split; [reflexivity|].
  rewrite skipn_app, skipn_all, Nat.sub_diag. cbn [app skipn].
  assert (Hterm : forall evs1 evs2, terminated (evs1 ++ evs2)
                                    = terminated evs1 ++ terminated evs2).
  { induction evs1 as [|ev evs1 IH]; intros evs2; [reflexivity|].
    destruct ev; cbn; now rewrite ?IH. }
  cbn [terminated]. rewrite Hterm. cbn [terminated app].
  rewrite (shut_down_terminated before segs1 Hshape1).
  f_equal. f_equal.
  apply shut_down_terminated.
  clear - Hshape2. induction Hshape2; constructor; [now left | assumption].
Qed.

End ShutdownProperties.

Section BudgetProperties.
Context {host : Host}.

Lemma wait_budget_app (evs1 evs2 : list event) :
  wait_budget (evs1 ++ evs2) = wait_budget evs1 + wait_budget evs2.
Proof.
  induction evs1 as [|ev evs1 IH]; [reflexivity|].
  destruct ev as [| | | | | | |p [t|] c]; cbn; rewrite ?IH; lia.
Qed.

Lemma shut_down_budget (ps : list Popen) (segs : list (list event)) :
  Forall2 shut_down ps segs ->
  wait_budget (List.concat segs) = Z.of_nat (List.length ps)
  /\ (List.length (List.concat segs) <= 3 * List.length ps)%nat.
Proof.
  induction 1 as [|p seg ps segs Hp _ [IHb IHl]]; [split; reflexivity|].
  cbn [List.concat List.length].
  rewrite wait_budget_app, length_app, IHb, Nat2Z.inj_succ.
  destruct Hp as [[code ->] | ->]; cbn [wait_budget List.length]; lia.
Qed.

(** X5.  The only call of [terminate] that can block is the close of the
    stream.  On an opened sink whose stream's close completes, [terminate]
    returns or raises: it makes no wait without a timeout, the timeouts
    of all its waits add up to one second per process of the chain, and
    it makes at most one call for the stream and three per process. *)
Theorem terminate_is_bounded
    (os : OS) (st : State) (f : File) (ps : list Popen) :
  _stream (self st) = Some (Some f) ->
  _pipeline (self st) = Some ps ->
  absorbed (close_error os (log st) f) ->
  close_blocks os (log st) f = false ->
  exists r evs,
    PipeOutput.terminate os st
    = (r, {| self := self st; log := log st ++ evs |})
    /\ r <> Hangs
    /\ existsb is_untimed_wait evs = false
    /\ wait_budget evs = Z.of_nat (List.length ps)
    /\ (List.length evs <= 1 + 3 * List.length ps)%nat.
Proof.
  intros Hs Hp Ha Hb.
  destruct (terminate_all_run os ps
              (record st (EvClose f (close_error os (log st) f))) None)
    as (segs & exc & Hrun & Hshape & _).
  destruct (shut_down_budget ps segs Hshape) as [Hbudget Hl].
  exists (match exc with Some e => Raises e | None => Returns tt end).
  exists (EvClose f (close_error os (log st) f) :: List.concat segs).
  split; [|split; [|split; [|split]]].
  - rewrite terminate_unfold. unfold bind at 1.
    rewrite (close_nowait_run os st f Hs Ha Hb).
    unfold bind at 1. unfold getattr at 1. rewrite record_self, Hp.
    unfold bind at 1. rewrite Hrun. cbn [self log record].
    rewrite <- app_assoc. cbn [app].
    destruct exc; reflexivity.
  - destruct exc; discriminate.
  - cbn [existsb is_untimed_wait orb]. now apply (shut_down_signals ps segs).
  - cbn [wait_budget]. exact Hbudget.
  - cbn [List.length]. lia.
Qed.

(** A process that never obeys the terminate signal makes the loop end
    with a [TimeoutExpired]. *)
Lemma terminate_all_disobeyed (os : OS) (ps : list Popen) (p : Popen) :
  In p ps ->
  (forall l, wait_reply os l p (Some 1) = None) ->
  forall (st : State) (exc : option exn),
  exists q st',
    In q ps
    /\ terminate_all ps exc os st = (Returns (Some (timeout_expired (args q) 1)), st').
Proof.
  intros Hin Hnever st exc.
  destruct (in_split p ps Hin) as (before & after & ->).
  unfold terminate_all. rewrite for_app. fold (terminate_all before exc).
  destruct (terminate_all_run os before st exc) as (segs1 & exc1 & -> & _ & _).
  cbn [for_]. unfold bind at 1. rewrite terminate_one. cbn [log]. rewrite Hnever.
  match goal with |- context [for_ after ?exc2 ?body os ?st1] =>
    fold (terminate_all after exc2);
    destruct (terminate_all_run os after st1 exc2)
      as (segs2 & exc' & -> & _ & [[-> _] | (q & seg & Hq & _ & ->)])
  end.
  - exists p. eexists. split; [|reflexivity]. apply in_or_app. right. now left.
  - exists q. eexists. split; [|reflexivity].
    apply in_or_app. right. right. exact (in_combine_l _ _ _ _ Hq).
Qed.

Lemma terminate_after_close (os : OS) (st : State) (f : File) (ps : list Popen) :
  _stream (self st) = Some (Some f) ->
  _pipeline (self st) = Some ps ->
  absorbed (close_error os (log st) f) ->
  close_blocks os (log st) f = false ->
  PipeOutput.terminate os st
  = match terminate_all ps None os
            (record st (EvClose f (close_error os (log st) f))) with
    | (Returns (Some e), st') => (Raises e, st')
    | (Returns None, st') => (Returns tt, st')
    | (Raises e, st') => (Raises e, st')
    | (Hangs, st') => (Hangs, st')
    end.
Proof.
  intros Hs Hp Ha Hb. rewrite terminate_unfold. unfold bind at 1.
  rewrite (close_nowait_run os st f Hs Ha Hb).
  unfold bind at 1. unfold getattr at 1. rewrite record_self, Hp.
  unfold bind at 1.
  destruct (terminate_all ps None os _) as [[[e|]|e|] st']; reflexivity.
Qed.

(** X8.  When the body of a [with] block over an opened sink raises [e]
    and the close of the stream completes: if every process obeys the
    terminate signal within the timeout, the block raises [e] itself; if
    some process never does, the [TimeoutExpired] of [terminate] is
    raised in place of [e]. *)
Theorem with_block_exception_is_kept_or_replaced
    (A : Type) (body : M A) (os : OS) (st st1 : State) (e : exn)
    (f : File) (ps : list Popen) :
  body os st = (Raises e, st1) ->
  _stream (self st1) = Some (Some f) ->
  _pipeline (self st1) = Some ps ->
  absorbed (close_error os (log st1) f) ->
  close_blocks os (log st1) f = false ->
  ((forall l q, In q ps -> wait_reply os l q (Some 1) <> None) ->
   fst (PipeOutput.with_ body os st) = Raises e)
  /\ (forall p,
        In p ps ->
        (forall l, wait_reply os l p (Some 1) = None) ->
        exists q,
          In q ps
          /\ fst (PipeOutput.with_ body os st) = Raises (timeout_expired (args q) 1)).
Proof.
  intros Hbody Hs Hp Ha Hb.
  assert (Hwith : PipeOutput.with_ body os st
                  = (PipeOutput.terminate ;; raise e) os st1).
  { unfold PipeOutput.with_. now rewrite Hbody. }
  rewrite Hwith. unfold bind.
  rewrite (terminate_after_close os st1 f ps Hs Hp Ha Hb). split.
  - intros Hobey.
    destruct (terminate_all_obeyed os ps Hobey
                (record st1 (EvClose f (close_error os (log st1) f))) None)
      as (segs & -> & _).
    reflexivity.
  - intros p Hin Hnever.
    destruct (terminate_all_disobeyed os ps p Hin Hnever
                (record st1 (EvClose f (close_error os (log st1) f))) None)
      as (q & st' & Hq & ->).
    exists q. split; [exact Hq | reflexivity].
Qed.

(** X15.  A broken pipe is no exception for the block: when the write of
    a frame fails because the peer closed its end, [write_frame] returns
    [Stop], the [with] block is left normally and runs [close(wait=True)]:
    the stream is closed (that close completes, a failure of it being
    absorbed), every process is waited for, none is signalled, and the
    block returns [Stop]. *)
Theorem broken_pipe_ends_through_close
    (os : OS) (st : State) (f : File) (ps : list Popen) (frame : ByteBuffer)
    (e : exn) :
  _stream (self st) = Some (Some f) ->
  _pipeline (self st) = Some ps ->
  write_error os (log st) f frame = Some e ->
  isinstance e BrokenPipeError = true ->
  let written := EvWrite f frame (Some e) in
  absorbed (close_error os (log st ++ [written]) f) ->
  close_blocks os (log st ++ [written]) f = false ->
  (forall l p, In p ps -> wait_reply os l p None <> None) ->
  exists codes,
    List.length codes = List.length ps
    /\ PipeOutput.with_ (PipeOutput.write_frame frame) os st
       = (Returns (Some Stop),
          {| self := self st;
             log := log st
                    ++ written
                    :: EvClose f (close_error os (log st ++ [written]) f)
                    :: waits ps codes |}).
Proof.
  intros Hs Hp Hw He written Ha Hb Hexit.
  unfold PipeOutput.with_.
  rewrite (write_frame_run os st f frame Hs), (write_event_failed _ _ _ _ _ Hw), Hw, He.
  fold written.
  destruct (wait_all_exits os ps Hexit
              (record (record st written)
                 (EvClose f (close_error os (log st ++ [written]) f))) 0)
    as (codes & Hlen & Hrun).
  exists codes. split; [exact Hlen|].
  unfold PipeOutput.__exit__. unfold bind at 1. unfold bind at 1.
  rewrite close_unfold. unfold bind at 1.
  rewrite (close_stream_run os (record st written) f Hs Ha Hb). cbn [negb].
  unfold bind at 1. unfold getattr at 1. rewrite !record_self, Hp.
  rewrite record_log, Hrun. unfold record, ret. cbn [self log].
  rewrite <- !app_assoc. reflexivity.
Qed.

End BudgetProperties.

(** *** The constructors *)

Section ConstructionOutcomes.
Context {host : Host}.

(** The log of a constructor whose templates tokenise starts with the
    spawn request for the encoder. *)
Lemma construct_log (cfg : IOutputConfig) (corr_cfg : Config) (os : OS)
    (st : State) (args : list string) :
  split_all (CommandTemplate.groups cfg corr_cfg) = Returns args ->
  exists reply later,
    log (snd (construct cfg corr_cfg os st))
    = log st
      ++ encoder_spawn cfg corr_cfg
           (args ++ [CommandTemplate.destination cfg]) reply :: later.
Proof.
  intros Hargs. rewrite (construct_run cfg corr_cfg os st _ Hargs).
  destruct (spawn_reply os (log st) _ "ffmpeg" PIPE
              (CommandTemplate.encoder_stdout cfg)) as [e|p1] eqn:Hreply.
  - exists (inl e), []. reflexivity.
  - destruct cfg as [c|c].
    + exists (inr p1), []. reflexivity.
    + apply spawn_reply_popen in Hreply.
      cbn [CommandTemplate.encoder_stdout] in Hreply.
      rewrite (player_stage_run p1 {| owner := next_pid (log st); stream := Stdout |});
        [|now rewrite Hreply|reflexivity].
      destruct (spawn_reply os _ player_command "ffplay" _ Inherit) as [e|p2].
      * exists (inr p1). eexists. cbn [snd log record]. rewrite <- app_assoc. reflexivity.
      * exists (inr p1). eexists. cbn [snd log record].
        rewrite <- !app_assoc. reflexivity.
Qed.

(** X3.  Either constructor asks for the encoder's stdin to be buffered
    with room for exactly two frames of [width * height * 3] bytes; for
    positive dimensions that size is at least 6, so it is never one of
    the sizes [subprocess.Popen] reads as unbuffered (0), line-buffered
    (1) or default (negative). *)
Theorem encoder_buffer_holds_two_frames
    (cfg : IOutputConfig) (corr_cfg : Config) (os : OS) (st : State)
    (args : list string) :
  split_all (CommandTemplate.groups cfg corr_cfg) = Returns args ->
  let frame_bytes := width (render corr_cfg) * height (render corr_cfg) * 3 in
  exists command out reply later,
    log (snd (construct cfg corr_cfg os st))
    = log st ++ EvSpawn command PIPE out (2 * frame_bytes) reply :: later
    /\ (1 <= width (render corr_cfg) -> 1 <= height (render corr_cfg) ->
        6 <= 2 * frame_bytes).
Proof.
  intros Hargs frame_bytes.
  destruct (construct_log cfg corr_cfg os st args Hargs) as (reply & later & Hlog).
  exists (args ++ [CommandTemplate.destination cfg]),
    (CommandTemplate.encoder_stdout cfg), reply, later.
  split.
  - rewrite Hlog. unfold encoder_spawn, buffer_size, RGB_DEPTH, FRAMES_TO_BUFFER.
    do 3 f_equal. unfold frame_bytes. ring.
  - unfold frame_bytes. nia.
Qed.

(** A constructor whose templates do not tokenise does not return. *)
Lemma construct_needs_tokens (cfg : IOutputConfig) (corr_cfg : Config)
    (os : OS) (st : State) (st' : State) :
  construct cfg corr_cfg os st = (Returns tt, st') ->
  exists args, split_all (CommandTemplate.groups cfg corr_cfg) = Returns args.
Proof.
  destruct (split_all (CommandTemplate.groups cfg corr_cfg)) as [args|e|] eqn:Hargs;
    [eauto| |]; intros H; exfalso; revert H;
    rewrite construct_unfold; unfold bind at 1; rewrite output_init_run;
    unfold bind at 1; unfold getattr at 1;
    cbn [self bufsize initialised set_bufsize]; unfold bind at 1;
    unfold _FFmpegProcess.popen, try_except, bind, lift, _FFmpegProcess._generate_args;
    rewrite encoder_templates, Hargs.
  - destruct (caught_by [FileNotFoundError] e); discriminate.
  - discriminate.
Qed.

(** What a constructor that returns has done. *)
Lemma construct_success (cfg : IOutputConfig) (corr_cfg : Config) (os : OS)
    (st st' : State) :
  construct cfg corr_cfg os st = (Returns tt, st') ->
  let n := next_pid (log st) in
  let out := {| owner := n; stream := Stdout |} in
  exists args rest later,
    let command := args ++ [CommandTemplate.destination cfg] in
    let p1 := new_popen n command PIPE (CommandTemplate.encoder_stdout cfg) in
    split_all (CommandTemplate.groups cfg corr_cfg) = Returns args
    /\ st' = {| self := set__stream (stdin p1)
                          (set__pipeline (p1 :: rest)
                             (initialised corr_cfg cfg (self st)));
                log := log st
                       ++ encoder_spawn cfg corr_cfg command (inr p1) :: later |}
    /\ match cfg with
       | FFmpegCfg _ => rest = [] /\ later = []
       | FFplayCfg _ =>
           exists p2,
             rest = [p2] /\ pid p2 = S n
             /\ later = [EvSpawn player_command (Handle out) Inherit
                           FFplayOutput.default_bufsize (inr p2);
                         EvClose out None]
       end.
Proof.
  intros Hrun n out.
  destruct (construct_needs_tokens cfg corr_cfg os st st' Hrun) as (args & Hargs).
  rewrite (construct_run cfg corr_cfg os st args Hargs) in Hrun.
  destruct (spawn_reply os (log st) _ "ffmpeg" PIPE
              (CommandTemplate.encoder_stdout cfg)) as [e|p1] eqn:Hreply;
    [discriminate|].
  pose proof (spawn_reply_popen _ _ _ _ _ _ _ Hreply) as Hp1. fold n in Hp1.
  exists args. destruct cfg as [c|c].
  - exists [], []. rewrite open_nonempty in Hrun. injection Hrun as <-.
    cbn zeta. rewrite <- Hp1. auto.
  - cbn [CommandTemplate.encoder_stdout] in Hp1.
    rewrite (player_stage_run p1 out) in Hrun; [|now rewrite Hp1|reflexivity].
    destruct (spawn_reply os _ player_command "ffplay" _ Inherit) as [e|p2] eqn:Hreply2;
      [discriminate|].
    cbn zeta in Hrun.
    destruct (close_error os _ _) as [e|]; [discriminate|].
    injection Hrun as <-.
    exists [p2], [EvSpawn player_command (Handle out) Inherit
                    FFplayOutput.default_bufsize (inr p2); EvClose out None].
    cbn zeta. cbn [CommandTemplate.encoder_stdout]. rewrite <- Hp1.
    split; [exact Hargs|]. split.
    + cbn [log CommandTemplate.destination] in Hreply2.
      unfold record, player_spawn. cbn [self log CommandTemplate.destination].
      rewrite Hreply2, <- !app_assoc. reflexivity.
    + exists p2. split; [reflexivity|]. split; [|reflexivity].
      apply spawn_reply_popen in Hreply2. rewrite Hreply2. cbn [pid new_popen log].
      apply next_pid_spawned.
Qed.

(** X9.  A constructor of either sink that returns leaves the sink
    opened: the chain starts with the encoder it spawned (alone for the
    file sink, followed by the player for the preview), the stream is the
    parent's end of the encoder's stdin pipe, [bufsize] is bound, and a
    [write_frame] that follows writes to that pipe. *)
Theorem constructed_sink_is_opened
    (cfg : IOutputConfig) (corr_cfg : Config) (os : OS) (st st' : State) :
  construct cfg corr_cfg os st = (Returns tt, st') ->
  let f := {| owner := next_pid (log st); stream := Stdin |} in
  exists p1 rest,
    _pipeline (self st') = Some (p1 :: rest)
    /\ pid p1 = next_pid (log st)
    /\ stdin p1 = Some f
    /\ _stream (self st') = Some (Some f)
    /\ List.length rest
       = match cfg with FFmpegCfg _ => 0%nat | FFplayCfg _ => 1%nat end
    /\ bufsize (self st') = Some (buffer_size corr_cfg)
    /\ forall frame,
         snd (PipeOutput.write_frame frame os st')
         = record st' (write_event os (log st') f frame).
Proof.
  intros Hrun f.
  destruct (construct_success cfg corr_cfg os st st' Hrun)
    as (args & rest & later & _ & -> & Hshape).
  eexists. exists rest.
  split; [reflexivity|]. split; [reflexivity|]. split; [reflexivity|].
  split; [reflexivity|]. split.
  - destruct cfg; [now destruct Hshape as [-> _]|].
    now destruct Hshape as (p2 & -> & _).
  - split; [reflexivity|]. intros frame.
    match goal with |- context [PipeOutput.write_frame frame os ?st1] =>
      assert (Hstream : _stream (self st1) = Some (Some f)) by reflexivity;
      now rewrite (write_frame_run os st1 f frame Hstream)
    end.
Qed.

(** X13.  From construction on, the parent holds the only write end of
    the encoder's stdin pipe and the encoder its only read end: no other
    process of the chain can write into the frame stream. *)
Theorem constructed_sink_is_the_only_writer
    (cfg : IOutputConfig) (corr_cfg : Config) (os : OS) (st st' : State) :
  construct cfg corr_cfg os st = (Returns tt, st') ->
  let f := {| owner := next_pid (log st); stream := Stdin |} in
  writers f (log st) = [] ->
  readers f (log st) = [] ->
  _stream (self st') = Some (Some f)
  /\ writers f (log st') = [Parent]
  /\ readers f (log st') = [Child (next_pid (log st))].
Proof.
  intros Hrun f Hw Hr.
  destruct (construct_success cfg corr_cfg os st st' Hrun)
    as (args & rest & later & _ & -> & Hshape).
  split; [reflexivity|].
  assert (Hself : Nat.eqb (next_pid (log st)) (next_pid (log st)) = true)
    by apply Nat.eqb_refl.
  assert (Hother : Nat.eqb (next_pid (log st)) (S (next_pid (log st))) = false)
    by (apply Nat.eqb_neq; lia).
  unfold writers, readers in *. cbn [log]. rewrite !holders_app, Hw, Hr.
  unfold encoder_spawn.
  destruct cfg as [c|c].
  - destruct Hshape as [_ ->].
    cbn [fold_left hold_step owner stream f new_popen pid is_pipe passes side_of
         pipe_side_eqb].
    rewrite Hself. split; reflexivity.
  - destruct Hshape as (p2 & _ & Hpid & ->).
    assert (Hout : File_eqb {| owner := next_pid (log st); stream := Stdout |} f
                   = false) by apply andb_false_r.
    cbn [fold_left hold_step owner stream f new_popen pid is_pipe passes side_of
         pipe_side_eqb CommandTemplate.encoder_stdout].
    rewrite Hpid, Hself, Hother, Hout. split; reflexivity.
Qed.

(** X10.  When the spawn of the encoder fails, either constructor makes no
    further call and does not open the sink.  A failure to locate the
    executable ([FileNotFoundError], errno ENOENT) is raised as
    [MissingFFmpegError]; any other failure of the spawn (a permission
    error, a refusal of the OS) is raised unchanged. *)
Theorem encoder_spawn_failure
    (cfg : IOutputConfig) (corr_cfg : Config) (os : OS) (st : State)
    (args : list string) (e : exn) :
  split_all (CommandTemplate.groups cfg corr_cfg) = Returns args ->
  let command := args ++ [CommandTemplate.destination cfg] in
  spawn_reply os (log st) command "ffmpeg" PIPE (CommandTemplate.encoder_stdout cfg)
    = inl e ->
  let st' :=
    {| self := initialised corr_cfg cfg (self st);
       log := log st ++ [encoder_spawn cfg corr_cfg command (inl e)] |} in
  (e = os_error ENOENT ->
     construct cfg corr_cfg os st = (Raises missing_ffmpeg_error, st'))
  /\ (e <> os_error ENOENT -> construct cfg corr_cfg os st = (Raises e, st'))
  /\ _pipeline (self st') = _pipeline (self st)
  /\ _stream (self st') = _stream (self st).
Proof.
  intros Hargs command Hreply st'.
  rewrite (construct_run cfg corr_cfg os st args Hargs). fold command.
  rewrite Hreply. fold st'. unfold popen_failure.
  split; [|split; [|split; reflexivity]].
  - intros ->. reflexivity.
  - intros Hne. destruct (isinstance e FileNotFoundError) eqn:Hi; [|reflexivity].
    apply file_not_found_instances in Hi. contradiction.
Qed.

(** X12.  The file sink from end to end, in an environment where the
    encoder is installed, no call fails or blocks and the encoder exits
    with status 0: constructing the sink, writing three frames and calling
    [close(wait=True)] returns status 0 without raising; the calls made
    are the spawn, the three writes in order, the close of the stream and
    one wait. *)
Theorem file_sink_end_to_end
    (corr_cfg : Config) (c : FFmpegOutputConfig.t) (os : OS) (st : State)
    (args : list string) (frame1 frame2 frame3 : ByteBuffer) :
  split_all (CommandTemplate.groups (FFmpegCfg c) corr_cfg) = Returns args ->
  locatable os "ffmpeg" = true ->
  (forall l a, spawn_error os l a = None) ->
  (forall l f d, write_error os l f d = None) ->
  (forall l f d, write_blocks os l f d = false) ->
  (forall l f, close_error os l f = None) ->
  (forall l f, close_blocks os l f = false) ->
  (forall l p, wait_reply os l p None = Some 0) ->
  let command := args ++ [CommandTemplate.destination (FFmpegCfg c)] in
  let p := new_popen (next_pid (log st)) command PIPE Inherit in
  let f := {| owner := next_pid (log st); stream := Stdin |} in
  (FFmpegOutput.__init__ corr_cfg c ;;
   PipeOutput.write_frame frame1 ;;
   PipeOutput.write_frame frame2 ;;
   PipeOutput.write_frame frame3 ;;
   PipeOutput.close true) os st
  = (Returns 0,
     {| self := set__stream (Some f)
                  (set__pipeline [p] (initialised corr_cfg (FFmpegCfg c) (self st)));
        log := log st
               ++ [EvSpawn command PIPE Inherit (buffer_size corr_cfg) (inr p);
                   EvWrite f frame1 None; EvWrite f frame2 None;
                   EvWrite f frame3 None; EvClose f None;
                   EvWait p None (Some 0)] |}).
Proof.
  intros Hargs Hloc Hspawn Hwrite Hwb Hclose Hcb Hwait command p f.
  assert (Hrun : forall st0 frame,
             _stream (self st0) = Some (Some f) ->
             PipeOutput.write_frame frame os st0
             = (Returns None, record st0 (EvWrite f frame None))).
  { intros st0 frame Hs0. apply write_frame_continues; auto. }
  unfold bind at 1.
  change (FFmpegOutput.__init__ corr_cfg c) with (construct (FFmpegCfg c) corr_cfg).
  rewrite (construct_run (FFmpegCfg c) corr_cfg os st args Hargs).
  cbn [CommandTemplate.encoder_stdout]. fold command.
  unfold spawn_reply. rewrite Hloc, Hspawn. fold p.
  rewrite open_nonempty. cbn [self log].
  set (st1 := {| self := _; log := _ |}).
  set (st2 := record st1 (EvWrite f frame1 None)).
  set (st3 := record st2 (EvWrite f frame2 None)).
  set (st4 := record st3 (EvWrite f frame3 None)).
  unfold bind at 1. rewrite (Hrun st1 frame1 eq_refl).
  fold st2.
  unfold bind at 1. rewrite (Hrun st2 frame2 eq_refl).
  fold st3.
  unfold bind at 1. rewrite (Hrun st3 frame3 eq_refl).
  fold st4.
  rewrite close_unfold. unfold bind at 1.
  rewrite (close_stream_run os st4 f eq_refl);
    [|intros e He; rewrite Hclose in He; discriminate|apply Hcb].
  rewrite Hclose. cbn [negb]. unfold bind at 1. unfold getattr at 1.
  cbn [self record st4 st3 st2 st1 _pipeline set__stream set__pipeline].
  unfold wait_all. cbn [for_]. unfold bind, Popen_wait, ret. rewrite Hwait.
  unfold st4, st3, st2, st1, record, encoder_spawn. cbn [self log Z.lor].
  rewrite <- !app_assoc. reflexivity.
Qed.

End ConstructionOutcomes.

(* ===================================================================== *)
(** ** The further properties on concrete runs *)
(* ===================================================================== *)

Lemma encoder_buffer_holds_two_frames_witness :
  split_all (CommandTemplate.groups file_sink Demo.with_audio)
  = Returns file_sink_tokens
  /\ exists command out reply later,
       log (snd (construct file_sink Demo.with_audio (Demo.exiting 0) Demo.initial))
       = log Demo.initial
         ++ EvSpawn command PIPE out (2 * (640 * 480 * 3)) reply :: later
       /\ (1 <= 640 -> 1 <= 480 -> 6 <= 2 * (640 * 480 * 3)).
Proof.
  split; [reflexivity|].
  exact (encoder_buffer_holds_two_frames file_sink Demo.with_audio
           (Demo.exiting 0) Demo.initial file_sink_tokens eq_refl).
Defined.

(** Neither process obeys: the timeout raised is the player's, the last
    in the chain. *)
Lemma terminate_raises_the_last_timeout_witness :
  _stream (self Demo.running) = Some (Some encoder_input)
  /\ _pipeline (self Demo.running) = Some ([Demo.encoder] ++ Demo.player :: [])
  /\ fst (PipeOutput.terminate Demo.nobody_exits Demo.running)
     = Raises (timeout_expired (args Demo.player) 1)
  /\ terminated
       (skipn (List.length (log Demo.running))
          (log (snd (PipeOutput.terminate Demo.nobody_exits Demo.running))))
     = [Demo.encoder] ++ Demo.player :: [].
Proof.
  split; [reflexivity|]. split; [reflexivity|].
  apply (terminate_raises_the_last_timeout Demo.nobody_exits Demo.running
           encoder_input [Demo.encoder] [] Demo.player eq_refl eq_refl).
  - intros e He. discriminate He.
  - reflexivity.
  - reflexivity.
  - intros l q [].
Defined.

Lemma terminate_is_bounded_witness :
  _stream (self Demo.running) = Some (Some encoder_input)
  /\ _pipeline (self Demo.running) = Some [Demo.encoder; Demo.player]
  /\ exists r evs,
       PipeOutput.terminate Demo.first_hangs Demo.running
       = (r, {| self := self Demo.running; log := log Demo.running ++ evs |})
       /\ r <> Hangs
       /\ existsb is_untimed_wait evs = false
       /\ wait_budget evs = Z.of_nat (List.length [Demo.encoder; Demo.player])
       /\ (List.length evs <= 1 + 3 * List.length [Demo.encoder; Demo.player])%nat.
Proof.
  split; [reflexivity|]. split; [reflexivity|].
  apply (terminate_is_bounded Demo.first_hangs Demo.running encoder_input
           [Demo.encoder; Demo.player] eq_refl eq_refl).
  - intros e He. discriminate He.
  - reflexivity.
Defined.

(** The player never exits: the encoder is waited for, then the call
    blocks on the player. *)
Lemma close_blocks_on_process_that_never_exits_witness :
  _pipeline (self Demo.running) = Some ([Demo.encoder] ++ Demo.player :: [])
  /\ (forall l, wait_reply Demo.second_hangs l Demo.player None = None)
  /\ exists codes,
       List.length codes = List.length [Demo.encoder]
       /\ PipeOutput.close true Demo.second_hangs Demo.running
          = (Hangs,
             {| self := self Demo.running;
                log := log Demo.running
                       ++ EvClose encoder_input
                            (close_error Demo.second_hangs (log Demo.running)
                               encoder_input)
                          :: waits [Demo.encoder] codes
                             ++ [EvWait Demo.player None None] |}).
Proof.
  split; [reflexivity|]. split; [reflexivity|].
  apply (close_blocks_on_process_that_never_exits Demo.second_hangs Demo.running
           encoder_input [Demo.encoder] [] Demo.player eq_refl eq_refl).
  - intros e He. discriminate He.
  - reflexivity.
  - intros l q [<- | []]. discriminate.
  - reflexivity.
Defined.

(** The encoder exits with 1 and the player is killed by signal 9: the
    status is negative. *)
Lemma close_status_range_witness :
  _pipeline (self Demo.running) = Some [Demo.encoder; Demo.player]
  /\ (forall l c, wait_reply Demo.player_killed l Demo.player None = Some c -> c < 0)
  /\ exists status,
       fst (PipeOutput.close true Demo.player_killed Demo.running) = Returns status
       /\ ((forall l p c,
              In p [Demo.encoder; Demo.player] ->
              wait_reply Demo.player_killed l p None = Some c -> 0 <= c < 256) ->
           0 <= status < 256)
       /\ ((exists p,
              In p [Demo.encoder; Demo.player]
              /\ forall l c, wait_reply Demo.player_killed l p None = Some c -> c < 0) ->
           status < 0).
Proof.
  split; [reflexivity|]. split; [intros l c [= <-]; reflexivity|].
  apply (close_status_range Demo.player_killed Demo.running encoder_input
           [Demo.encoder; Demo.player] eq_refl eq_refl).
  - intros e He. discriminate He.
  - reflexivity.
  - intros l p [<- | [<- | []]]; discriminate.
Defined.

Example close_status_of_killed_player :
  fst (PipeOutput.close true Demo.player_killed Demo.running) = Returns (-9)
  /\ fst (PipeOutput.close true (Demo.exiting 3) Demo.running) = Returns 3.
Proof. split; reflexivity. Qed.

(** A body that raises after one frame, with an encoder that ignores the
    terminate signal. *)
Lemma with_block_exception_is_kept_or_replaced_witness :
  let body := PipeOutput.write_frame Demo.frame ;;
              (raise (value_error "render") : M unit) in
  let st1 := record Demo.running (EvWrite encoder_input Demo.frame None) in
  body Demo.first_hangs Demo.running = (Raises (value_error "render"), st1)
  /\ In Demo.encoder [Demo.encoder; Demo.player]
  /\ (forall l, wait_reply Demo.first_hangs l Demo.encoder (Some 1) = None)
  /\ exists q,
       In q [Demo.encoder; Demo.player]
       /\ fst (PipeOutput.with_ body Demo.first_hangs Demo.running)
          = Raises (timeout_expired (args q) 1).
Proof.
  intros body st1.
  assert (Hin : In Demo.encoder [Demo.encoder; Demo.player]) by now left.
  assert (Hnever : forall l, wait_reply Demo.first_hangs l Demo.encoder (Some 1) = None)
    by reflexivity.
  split; [reflexivity|]. split; [exact Hin|]. split; [exact Hnever|].
  refine (proj2 (with_block_exception_is_kept_or_replaced unit body
                   Demo.first_hangs Demo.running st1 (value_error "render")
                   encoder_input [Demo.encoder; Demo.player] eq_refl eq_refl eq_refl _
                   eq_refl)
            Demo.encoder Hin Hnever).
  intros e He. discriminate He.
Defined.

Lemma constructed_sink_is_opened_witness :
  construct file_sink Demo.with_audio (Demo.exiting 0) Demo.initial
  = (Returns tt, constructed_file_sink)
  /\ exists p1 rest,
       _pipeline (self constructed_file_sink) = Some (p1 :: rest)
       /\ pid p1 = next_pid (log Demo.initial)
       /\ stdin p1 = Some encoder_input
       /\ _stream (self constructed_file_sink) = Some (Some encoder_input)
       /\ List.length rest = 0%nat
       /\ bufsize (self constructed_file_sink) = Some (buffer_size Demo.with_audio)
       /\ forall frame,
            snd (PipeOutput.write_frame frame (Demo.exiting 0) constructed_file_sink)
            = record constructed_file_sink
                (write_event (Demo.exiting 0) (log constructed_file_sink)
                   encoder_input frame).
Proof.
  assert (H : construct file_sink Demo.with_audio (Demo.exiting 0) Demo.initial
              = (Returns tt, constructed_file_sink)) by reflexivity.
  split; [exact H|].
  exact (constructed_sink_is_opened file_sink Demo.with_audio (Demo.exiting 0)
           Demo.initial constructed_file_sink H).
Defined.

Lemma constructed_sink_is_the_only_writer_witness :
  construct file_sink Demo.with_audio (Demo.exiting 0) Demo.initial
  = (Returns tt, constructed_file_sink)
  /\ writers encoder_input (log Demo.initial) = []
  /\ readers encoder_input (log Demo.initial) = []
  /\ _stream (self constructed_file_sink) = Some (Some encoder_input)
  /\ writers encoder_input (log constructed_file_sink) = [Parent]
  /\ readers encoder_input (log constructed_file_sink) = [Child 0].
Proof.
  assert (H : construct file_sink Demo.with_audio (Demo.exiting 0) Demo.initial
              = (Returns tt, constructed_file_sink)) by reflexivity.
  split; [exact H|]. split; [reflexivity|]. split; [reflexivity|].
  exact (constructed_sink_is_the_only_writer file_sink Demo.with_audio
           (Demo.exiting 0) Demo.initial constructed_file_sink H eq_refl eq_refl).
Defined.

(** The encoder is found but may not be run: the permission error comes
    out as it is. *)
Lemma encoder_spawn_failure_witness :
  let command := file_sink_tokens ++ ["/work/out.mp4"] in
  let st' :=
    {| self := initialised Demo.with_audio file_sink (self Demo.initial);
       log := log Demo.initial
              ++ [encoder_spawn file_sink Demo.with_audio command
                    (inl (os_error EACCES))] |} in
  split_all (CommandTemplate.groups file_sink Demo.with_audio)
  = Returns file_sink_tokens
  /\ spawn_reply Demo.permission_denied (log Demo.initial) command "ffmpeg" PIPE
       (CommandTemplate.encoder_stdout file_sink) = inl (os_error EACCES)
  /\ os_error EACCES <> os_error ENOENT
  /\ construct file_sink Demo.with_audio Demo.permission_denied Demo.initial
     = (Raises (os_error EACCES), st').
Proof.
  intros command st'.
  assert (Hne : os_error EACCES <> os_error ENOENT) by discriminate.
  split; [reflexivity|]. split; [reflexivity|]. split; [exact Hne|].
  exact (proj1 (proj2 (encoder_spawn_failure file_sink Demo.with_audio
                         Demo.permission_denied Demo.initial file_sink_tokens
                         (os_error EACCES) eq_refl eq_refl)) Hne).
Defined.

(** A video template with a quotation left open. *)
Lemma untokenised_template_raises_before_spawn_witness :
  split_all (CommandTemplate.groups Demo.unbalanced Demo.silent)
  = Raises (value_error "No closing quotation")
  /\ exists msg,
       value_error "No closing quotation" = value_error msg
       /\ construct Demo.unbalanced Demo.silent (Demo.exiting 0) Demo.initial
          = (Raises (value_error msg),
             {| self := initialised Demo.silent Demo.unbalanced (self Demo.initial);
                log := log Demo.initial |})
       /\ _pipeline (initialised Demo.silent Demo.unbalanced (self Demo.initial))
          = _pipeline (self Demo.initial)
       /\ _stream (initialised Demo.silent Demo.unbalanced (self Demo.initial))
          = _stream (self Demo.initial).
Proof.
  split; [reflexivity|].
  exact (untokenised_template_raises_before_spawn Demo.unbalanced Demo.silent
           (Demo.exiting 0) Demo.initial _ eq_refl).
Defined.

Lemma file_sink_end_to_end_witness :
  let c := FFmpegOutputConfig.default (Some "out.mp4") in
  let os := Demo.exiting 0 in
  let command := file_sink_tokens ++ ["/work/out.mp4"] in
  let p := new_popen 0 command PIPE Inherit in
  split_all (CommandTemplate.groups (FFmpegCfg c) Demo.with_audio)
  = Returns file_sink_tokens
  /\ locatable os "ffmpeg" = true
  /\ (FFmpegOutput.__init__ Demo.with_audio c ;;
      PipeOutput.write_frame Demo.frame ;;
      PipeOutput.write_frame Demo.frame ;;
      PipeOutput.write_frame Demo.frame ;;
      PipeOutput.close true) os Demo.initial
     = (Returns 0,
        {| self := set__stream (Some encoder_input)
                     (set__pipeline [p]
                        (initialised Demo.with_audio (FFmpegCfg c) (self Demo.initial)));
           log := log Demo.initial
                  ++ [EvSpawn command PIPE Inherit (buffer_size Demo.with_audio) (inr p);
                      EvWrite encoder_input Demo.frame None;
                      EvWrite encoder_input Demo.frame None;
                      EvWrite encoder_input Demo.frame None;
                      EvClose encoder_input None;
                      EvWait p None (Some 0)] |}).
Proof.
  intros c os command p.
  split; [reflexivity|]. split; [reflexivity|].
  exact (file_sink_end_to_end Demo.with_audio c os Demo.initial file_sink_tokens
           Demo.frame Demo.frame Demo.frame eq_refl eq_refl
           (fun _ _ => eq_refl) (fun _ _ _ => eq_refl) (fun _ _ _ => eq_refl)
           (fun _ _ => eq_refl) (fun _ _ => eq_refl) (fun _ _ => eq_refl)).
Defined.

(** The peer has gone: the write and the close both fail with EPIPE. *)
Lemma broken_pipe_ends_through_close_witness :
  let written := EvWrite encoder_input Demo.frame (Some (os_error EPIPE)) in
  write_error Demo.broken_pipe (log Demo.running) encoder_input Demo.frame
  = Some (os_error EPIPE)
  /\ isinstance (os_error EPIPE) BrokenPipeError = true
  /\ exists codes,
       List.length codes = List.length [Demo.encoder; Demo.player]
       /\ PipeOutput.with_ (PipeOutput.write_frame Demo.frame)
            Demo.broken_pipe Demo.running
          = (Returns (Some Stop),
             {| self := self Demo.running;
                log := log Demo.running
                       ++ written
                       :: EvClose encoder_input
                            (close_error Demo.broken_pipe
                               (log Demo.running ++ [written]) encoder_input)
                       :: waits [Demo.encoder; Demo.player] codes |}).
Proof.
  intros written.
  split; [reflexivity|]. split; [reflexivity|].
  apply (broken_pipe_ends_through_close Demo.broken_pipe Demo.running
           encoder_input [Demo.encoder; Demo.player] Demo.frame (os_error EPIPE)
           eq_refl eq_refl eq_refl eq_refl).
  - intros e [= <-]. reflexivity.
  - reflexivity.
  - intros l p _. discriminate.
Defined.
